(** * pyfiberamp: initial guess construction and the active-fiber collaborator

    A shallow embedding of [fiberamp/initial_guess_maker.py] and of the
    dispatching methods of [fiberamp/fibers/active_fiber.py].

    Numbers.  Python floats are idealised as the real numbers [R]: every
    statement below is about the arithmetic the code writes down, not about
    rounding.  Where numpy yields [nan] or [inf] with a warning (division by
    zero, logarithm of a non-positive number) the real-number operators return
    some unspecified total value instead; the theorems that depend on such an
    operation carry the hypothesis that keeps it away from that case.  The
    exponential signal guess, where the source has no such guard, is given a
    second time over floats with their special values ([Ieee]).

    Failure.  A raised Python exception is a value [Raise e] of the [result]
    type, threaded through with [bind] exactly where the source sequences
    calls. *)

From Stdlib Require Import Reals String Arith Bool Lia Lra List.
Import ListNotations.

Open Scope R_scope.

(** ** Exceptions and results *)

Inductive exn : Type :=
| RuntimeError (msg : string)
| NotImplementedError
| IndexError
| TypeError
| ValueError.

Inductive result (A : Type) : Type :=
| Ok (a : A)
| Raise (e : exn).

Arguments Ok {A} a.
Arguments Raise {A} e.

Definition bind {A B : Type} (c : result A) (k : A -> result B) : result B :=
  match c with
  | Ok a => k a
  | Raise e => Raise e
  end.

Notation "'do' x <- c ; k" := (bind c (fun x => k))
  (at level 10, x name, c at level 100, k at level 200).

Fixpoint mapM {A B : Type} (f : A -> result B) (l : list A) : result (list B) :=
  match l with
  | [] => Ok []
  | x :: xs => do y <- f x; do ys <- mapM f xs; Ok (y :: ys)
  end.

(** ** The part of numpy the two modules use *)

Module Np.

(** A 1-D float array and a 2-D float array (a list of rows). *)
Abbreviation vec := (list R).
Abbreviation matrix := (list (list R)).

(** [np.sum] of a 1-D array. *)
Definition sum (v : vec) : R := fold_left Rplus v 0.

(** [np.mean] of a Python list of scalars: the sum over the count. *)
Definition mean (v : vec) : R := sum v / INR (length v).

(** [np.zeros((n, m))]. *)
Definition zeros (n m : nat) : matrix := repeat (repeat 0 m) n.

(** [np.full_like(a, x)] for a 1-D float array [a]. *)
Definition full_like (a : vec) (x : R) : vec := map (fun _ => x) a.

(** [c * a] for a scalar [c] and a 1-D array [a]. *)
Definition scale (c : R) (a : vec) : vec := map (fun x => c * x) a.

(** [a[-1]]: an empty array raises [IndexError]. *)
Definition last_item (a : vec) : result R :=
  match rev a with
  | [] => Raise IndexError
  | x :: _ => Ok x
  end.

(** Python [slice(start, stop)] with non-negative bounds and step 1, the
    only kind the slice map of the channel registry holds. *)
Record slice : Type := Slice { slice_start : nat; slice_stop : nat }.

(** [slice.indices(n)]: both bounds are clamped to the length; a stop below
    the start selects nothing. *)
Definition lo (s : slice) (n : nat) : nat := Nat.min (slice_start s) n.
Definition hi (s : slice) (n : nat) : nat := Nat.min (slice_stop s) n.
Definition slice_len (s : slice) (n : nat) : nat := hi s n - lo s n.

(** [a[s]] along the first axis. *)
Definition getslice {A : Type} (s : slice) (a : list A) : list A :=
  firstn (slice_len s (length a)) (skipn (lo s (length a)) a).

(** Broadcasting of a value of shape [(k', m')] to [(k, m)]: an axis must
    match or have length one; anything else is numpy's [ValueError]. *)
Definition broadcast_vec (m : nat) (r : vec) : result vec :=
  if (length r =? m)%nat then Ok r
  else if (length r =? 1)%nat then Ok (repeat (hd 0 r) m)
  else Raise ValueError.

Definition broadcast_to (k m : nat) (v : matrix) : result matrix :=
  do v' <- mapM (broadcast_vec m) v;
  if (length v' =? k)%nat then Ok v'
  else if (length v' =? 1)%nat then Ok (repeat (hd [] v') k)
  else Raise ValueError.

(** The rows selected by [s] replaced by the rows [v]. *)
Definition splice (s : slice) (v : matrix) (g : matrix) : matrix :=
  let a := lo s (length g) in
  let k := slice_len s (length g) in
  firstn a g ++ v ++ skipn (a + k) g.

(** [g[s] = v] for a 2-D array [g] with [m] columns: the selected rows are
    replaced by [v] broadcast to their shape. *)
Definition setslice (s : slice) (v : matrix) (g : matrix) (m : nat)
  : result matrix :=
  do rows <- broadcast_to (slice_len s (length g)) m v;
  Ok (splice s rows g).

(** [np.linspace(start, stop, num)] with the end point included: [num]
    samples [k * step + start] with [step = (stop - start) / (num - 1)], the
    last one set to [stop] itself when there are two or more; a single sample
    is [start]. *)
Definition linspace (start stop : R) (num : nat) : vec :=
  let div := (num - 1)%nat in
  let delta := stop - start in
  let y :=
    map (fun k : nat =>
           (if (0 <? div)%nat then INR k * (delta / INR div) else INR k * delta)
           + start)
        (seq 0 num) in
  if (1 <? num)%nat then removelast y ++ [stop] else y.

End Np.

Import Np.

(** ** Floats with their special values *)

(** Where a computation of the source can leave the finite numbers, a float
    is a real number or one of the IEEE special values.  Rounding and
    overflow are not modelled, and a zero is the positive zero, as the zero
    of an input power or of a grid point is. *)
Module Ieee.







End Ieee.

(** ** helper_funcs *)

(** Modelled from the spec: [linspace_2d] of [helper_funcs.py], which is not
    among the sources.  The spec describes the linear shape as linear
    interpolation from the start vector to the end vector across the grid,
    whose first column is the start vector and whose last column is the end
    vector: row [i], column [k] of [length] columns is
    [start_i + k * (end_i - start_i) / (length - 1)]. *)
Definition linspace_2d (start_arr end_arr : vec) (length : nat) : matrix :=
  map (fun se : R * R =>
         map (fun k : nat => fst se + INR k * (snd se - fst se) / INR (length - 1))
             (seq 0 length))
      (combine start_arr end_arr).

(** ** initial_guess_maker.py *)

Module InitialGuessMaker.

(** The keys of the slice map. *)
Inductive slice_key : Type :=
| signal_slice
| co_pump_slice
| counter_pump_slice
| forward_ase_slice
| backward_ase_slice
| forward_raman_slice
| backward_raman_slice.

Definition slice_map : Type := slice_key -> slice.

Definition all_keys : list slice_key :=
  [signal_slice; co_pump_slice; counter_pump_slice; forward_ase_slice;
   backward_ase_slice; forward_raman_slice; backward_raman_slice].

(** The guess parameters: the four entries of the [params] dictionary. *)
Record guess_params : Type := GuessParams {
  signal_conversion_guess : R;
  signal_gain_shape : string;
  pump_absorption_factor : R;
  ase_output_power : R
}.

Definition DEFAULT_GUESS_PARAMS : guess_params :=
  {| signal_conversion_guess := 0.5;
     signal_gain_shape := "linear"%string;
     pump_absorption_factor := 0.01;
     ase_output_power := 1e-3 |}.

(** The object built by [__init__]. *)
Record t : Type := Make {
  input_powers : vec;
  signal_powers : vec;
  co_pump_powers : vec;
  counter_pump_powers : vec;
  forward_ase_powers : vec;
  backward_ase_powers : vec;
  forward_raman_powers : vec;
  backward_raman_powers : vec;
  slices : slice_map;
  z : vec;
  params : guess_params
}.

Definition init (input_powers : vec) (slices : slice_map) (z : vec)
           (params : guess_params) : t :=
  {| input_powers := input_powers;
     signal_powers := getslice (slices signal_slice) input_powers;
     co_pump_powers := getslice (slices co_pump_slice) input_powers;
     counter_pump_powers := getslice (slices counter_pump_slice) input_powers;
     forward_ase_powers := getslice (slices forward_ase_slice) input_powers;
     backward_ase_powers := getslice (slices backward_ase_slice) input_powers;
     forward_raman_powers := getslice (slices forward_raman_slice) input_powers;
     backward_raman_powers := getslice (slices backward_raman_slice) input_powers;
     slices := slices;
     z := z;
     params := params |}.

Definition guess_shape (self : t) : nat * nat :=
  (length (input_powers self), length (z self)).

Definition linear_guess (self : t) (start end_ : vec) : matrix :=
  linspace_2d start end_ (length (z self)).

Definition exponential_guess (self : t) (start end_ : vec) : result matrix :=
  do z_last <- last_item (z self);
  Ok (map (fun se : R * R =>
             let gain := ln (snd se / fst se) / z_last in
             map (fun zk => fst se * exp (gain * zk)) (z self))
          (combine start end_)).

Definition make_signal_guess (self : t) : result matrix :=
  let total_pump_power :=
    Np.sum (co_pump_powers self) + Np.sum (counter_pump_powers self) in
  let signal_start := signal_powers self in
  let signal_end :=
    map (fun s => signal_conversion_guess (params self) * total_pump_power + s)
        signal_start in
  let signal_gain_shape := signal_gain_shape (params self) in
  if (signal_gain_shape =? "linear")%string then
    Ok (linear_guess self signal_start signal_end)
  else if (signal_gain_shape =? "exponential")%string then
    exponential_guess self signal_start signal_end
  else
    Raise (RuntimeError "Unrecognized signal gain shape parameter."%string).



Definition make_co_pump_guess (self : t) : matrix :=
  let co_pump_start := co_pump_powers self in
  let co_pump_end := scale (pump_absorption_factor (params self)) co_pump_start in
  linear_guess self co_pump_start co_pump_end.

Definition make_counter_pump_guess (self : t) : matrix :=
  let counter_pump_start :=
    scale (pump_absorption_factor (params self)) (counter_pump_powers self) in
  let counter_pump_end := counter_pump_powers self in
  linear_guess self counter_pump_start counter_pump_end.

Definition make_forward_ase_guess (self : t) : matrix :=
  let forward_ase_start := forward_ase_powers self in
  let forward_ase_end :=
    full_like forward_ase_start (ase_output_power (params self)) in
  linear_guess self forward_ase_start forward_ase_end.

Definition make_backward_ase_guess (self : t) : matrix :=
  let backward_ase_end := backward_ase_powers self in
  let backward_ase_start :=
    full_like backward_ase_end (ase_output_power (params self)) in
  linear_guess self backward_ase_start backward_ase_end.

Definition make_forward_raman_guess (self : t) : matrix :=
  let forward_raman_start := forward_raman_powers self in
  let forward_raman_end := map (fun p => p * 2) (forward_raman_powers self) in
  linear_guess self forward_raman_start forward_raman_end.

Definition make_backward_raman_guess (self : t) : matrix :=
  let backward_raman_start := backward_raman_powers self in
  let backward_raman_end := backward_raman_powers self in
  linear_guess self backward_raman_start backward_raman_end.

Definition make_guess (self : t) : result matrix :=
  let m := snd (guess_shape self) in
  let guess := zeros (fst (guess_shape self)) m in
  do b <- make_signal_guess self;
  do guess <- setslice (slices self signal_slice) b guess m;
  do guess <- setslice (slices self co_pump_slice) (make_co_pump_guess self) guess m;
  do guess <- setslice (slices self counter_pump_slice) (make_counter_pump_guess self) guess m;
  do guess <- setslice (slices self forward_ase_slice) (make_forward_ase_guess self) guess m;
  do guess <- setslice (slices self backward_ase_slice) (make_backward_ase_guess self) guess m;
  do guess <- setslice (slices self forward_raman_slice) (make_forward_raman_guess self) guess m;
  do guess <- setslice (slices self backward_raman_slice) (make_backward_raman_guess self) guess m;
  Ok guess.

End InitialGuessMaker.

(** ** fibers/active_fiber.py *)

Module ActiveFiber.

(** The attributes of the fiber object that the methods below read.  The
    two cross-section interpolants are the closures [make_interpolate]
    stores on the object; [overlap] is [None] under automatic overlap. *)
Record t : Type := Make {
  absorption_cs_interp : R -> R;
  gain_cs_interp : R -> R;
  length_ : R;
  core_r : R;
  tau : R;
  ion_number_density : R;
  background_loss : R;
  core_na : R;
  overlap : option R;
  effective_area_type : string
}.

Section Methods.

(** Functions of [helper_funcs.py], which is not among the sources; the
    methods are verified for every choice of them. *)
Variable freq_to_wl : R -> R.
Variable fundamental_mode_mfd_petermann_2 : R -> R -> R -> R.
Variable effective_area_from_mfd : R -> R -> R -> R.
Variable overlap_integral : R -> R -> R.

Definition overlap_is_constant (self : t) : bool :=
  match overlap self with
  | Some _ => true
  | None => false
  end.

Definition use_constant_overlap (self : t) (o : R) : t :=
  {| absorption_cs_interp := absorption_cs_interp self;
     gain_cs_interp := gain_cs_interp self;
     length_ := length_ self;
     core_r := core_r self;
     tau := tau self;
     ion_number_density := ion_number_density self;
     background_loss := background_loss self;
     core_na := core_na self;
     overlap := Some o;
     effective_area_type := effective_area_type self |}.

(** Falls off the end of the [if]/[elif] chain, and so returns [None],
    when the overlap is automatic and the radius is not positive. *)
Definition make_single_overlap (self : t) (mode_field_radius : R) : option R :=
  if overlap_is_constant self then overlap self
  else if Rlt_dec 0 mode_field_radius then
    Some (overlap_integral (core_r self) mode_field_radius)
  else None.

(** [x * o * n] where [o] may be [None]: a float times [None] is a
    [TypeError]. *)
Definition mul_overlap (x : R) (o : option R) (n : R) : result R :=
  match o with
  | Some v => Ok (x * v * n)
  | None => Raise TypeError
  end.

Definition get_channel_gain (self : t) (freq mode_field_radius : R) : result R :=
  mul_overlap (gain_cs_interp self freq)
              (make_single_overlap self mode_field_radius)
              (ion_number_density self).

Definition get_channel_absorption (self : t) (freq mode_field_radius : R)
  : result R :=
  mul_overlap (absorption_cs_interp self freq)
              (make_single_overlap self mode_field_radius)
              (ion_number_density self).

Definition get_mfd (self : t) (freq preset_mfd : R) : R :=
  if Rlt_dec 0 preset_mfd then preset_mfd
  else fundamental_mode_mfd_petermann_2 (freq_to_wl freq) (core_r self) (core_na self).

Definition core_area (self : t) : R := core_r self ^ 2 * PI.

(** [np.ones_like] of a scalar frequency is [1]. *)
Definition effective_area_from_core_area (self : t) (freq : R) : R :=
  core_area self * 1.

Definition effective_area_from_gaussian_approximation (self : t) (freq : R) : R :=
  effective_area_from_mfd (freq_to_wl freq) (core_r self) (core_na self).

Definition effective_area_from_bessel_distribution (self : t) (freq : R)
  : result R :=
  Raise NotImplementedError.

(** The result is [None] when no branch of the chain is taken. *)
Definition nonlinear_effective_area (self : t) (freq : R) : result (option R) :=
  if (effective_area_type self =? "core_area")%string then
    Ok (Some (effective_area_from_core_area self freq))
  else if (effective_area_type self =? "gaussian")%string then
    Ok (Some (effective_area_from_gaussian_approximation self freq))
  else if (effective_area_type self =? "bessel")%string then
    do a <- effective_area_from_bessel_distribution self freq; Ok (Some a)
  else Ok None.

Definition finite_bandwidth_gain (self : t)
           (center_frequency frequency_bandwidth mode_field_radius : R)
  : result R :=
  let start_frequency := center_frequency - frequency_bandwidth / 2 in
  let end_frequency := center_frequency + frequency_bandwidth / 2 in
  do start_gain <- get_channel_gain self start_frequency mode_field_radius;
  do end_gain <- get_channel_gain self end_frequency mode_field_radius;
  Ok (Np.mean [start_gain; end_gain]).

Definition finite_bandwidth_absorption (self : t)
           (center_frequency frequency_bandwidth mode_field_radius : R)
  : result R :=
  let start_frequency := center_frequency - frequency_bandwidth / 2 in
  let end_frequency := center_frequency + frequency_bandwidth / 2 in
  do start_absorption <- get_channel_absorption self start_frequency mode_field_radius;
  do end_absorption <- get_channel_absorption self end_frequency mode_field_radius;
  Ok (Np.mean [start_absorption; end_absorption]).

(** *** Overlap mode, construction and channel creation *)

(** More of [helper_funcs.py], and scipy's [UnivariateSpline(x, y, s=...,
    ext='zeros')] as the callable it returns; [wl_to_freq_array] is
    [wl_to_freq] applied to a 1-D array. *)
Variable wl_to_freq : R -> R.
Variable wl_bw_to_freq_bw : R -> R -> R.
Variable wl_to_freq_array : vec -> vec.
Variable UnivariateSpline : vec -> vec -> R -> (R -> R).

Definition CROSS_SECTION_SMOOTHING_FACTOR : R := 1e-51.

(** [spectrum] is a two-column array, wavelength and cross section; the
    interpolant evaluates the spline and replaces a negative value by zero. *)
Definition make_interpolate (spectrum : list (R * R)) : R -> R :=
  let frequency := wl_to_freq_array (map fst (rev spectrum)) in
  let cross_section := map snd (rev spectrum) in
  let spline :=
    UnivariateSpline frequency cross_section CROSS_SECTION_SMOOTHING_FACTOR in
  fun freq =>
    let cross_sec := spline freq in
    if Rlt_dec cross_sec 0 then 0 else cross_sec.

(** The function [use_automatic_overlap] installs besides is read by
    [make_overlap] only. *)
Definition use_automatic_overlap (self : t) : t :=
  {| absorption_cs_interp := absorption_cs_interp self;
     gain_cs_interp := gain_cs_interp self;
     length_ := length_ self;
     core_r := core_r self;
     tau := tau self;
     ion_number_density := ion_number_density self;
     background_loss := background_loss self;
     core_na := core_na self;
     overlap := None;
     effective_area_type := effective_area_type self |}.

(** [__init__], from the two spectra as [load_two_column_file] returns them
    (wavelengths in nanometres). *)
Definition init (length : R) (absorption_spectrum gain_spectrum : list (R * R))
           (core_r upper_state_lifetime ion_number_density background_loss core_na : R)
  : t :=
  let absorption_spectrum :=
    map (fun row => (fst row * 1e-9, snd row)) absorption_spectrum in
  let gain_spectrum := map (fun row => (fst row * 1e-9, snd row)) gain_spectrum in
  use_automatic_overlap
    {| absorption_cs_interp := make_interpolate absorption_spectrum;
       gain_cs_interp := make_interpolate gain_spectrum;
       length_ := length;
       core_r := core_r;
       tau := upper_state_lifetime;
       ion_number_density := ion_number_density;
       background_loss := background_loss;
       core_na := core_na;
       overlap := None;
       effective_area_type := "core_area" |}.

(** The arguments [OpticalChannel] is constructed with, in their order; the
    class itself is in [optical_channel.py], not among the sources. *)
Record OpticalChannel : Type := MakeChannel {
  channel_frequency : R;
  channel_frequency_bandwidth : R;
  channel_power : R;
  channel_direction : Z;
  channel_mfd : R;
  channel_gain : R;
  channel_absorption : R;
  channel_loss : R
}.

Definition create_in_core_single_frequency_channel (self : t)
           (wl power preset_mfd : R) (direction : Z) : result OpticalChannel :=
  let frequency := wl_to_freq wl in
  let frequency_bandwidth := 0 in
  let mfd := get_mfd self frequency preset_mfd in
  let mode_field_radius := mfd / 2 in
  do gain <- get_channel_gain self frequency mode_field_radius;
  do absorption <- get_channel_absorption self frequency mode_field_radius;
  let loss := background_loss self in
  Ok (MakeChannel frequency frequency_bandwidth power direction mfd gain absorption loss).

Definition create_in_core_finite_bandwidth_channel (self : t)
           (wl wl_bandwidth power preset_mfd : R) (direction : Z)
  : result OpticalChannel :=
  let center_frequency := wl_to_freq wl in
  let frequency_bandwidth := wl_bw_to_freq_bw wl_bandwidth wl in
  let mfd := get_mfd self center_frequency preset_mfd in
  let mode_field_radius := mfd / 2 in
  do gain <- finite_bandwidth_gain self center_frequency frequency_bandwidth
               mode_field_radius;
  do absorption <- finite_bandwidth_absorption self center_frequency
                     frequency_bandwidth mode_field_radius;
  let loss := background_loss self in
  Ok (MakeChannel center_frequency frequency_bandwidth power direction mfd gain
        absorption loss).

Definition create_in_core_forward_single_frequency_channel (self : t)
           (wl power preset_mfd : R) : result OpticalChannel :=
  create_in_core_single_frequency_channel self wl power preset_mfd 1%Z.

Definition create_in_core_backward_single_frequency_channel (self : t)
           (wl power preset_mfd : R) : result OpticalChannel :=
  create_in_core_single_frequency_channel self wl power preset_mfd (-1)%Z.

Definition create_forward_pump_channel (self : t)
           (wl power preset_mfd : R) : result OpticalChannel :=
  create_in_core_single_frequency_channel self wl power preset_mfd 1%Z.

Definition create_backward_pump_channel (self : t)
           (wl power preset_mfd : R) : result OpticalChannel :=
  create_in_core_single_frequency_channel self wl power preset_mfd (-1)%Z.

Definition create_in_core_forward_finite_bandwidth_channel (self : t)
           (wl wl_bandwidth power preset_mfd : R) : result OpticalChannel :=
  create_in_core_finite_bandwidth_channel self wl wl_bandwidth power preset_mfd 1%Z.

Definition create_in_core_backward_finite_bandwidth_channel (self : t)
           (wl wl_bandwidth power preset_mfd : R) : result OpticalChannel :=
  create_in_core_finite_bandwidth_channel self wl wl_bandwidth power preset_mfd (-1)%Z.

End Methods.

End ActiveFiber.

(** ** fiber_amplifier_simulation.py *)

Module FiberAmplifierSimulation.

(** The linear starting grid. *)
Definition _start_z (fiber : ActiveFiber.t) (npoints : nat) : vec :=
  Np.linspace 0 (ActiveFiber.length_ fiber) npoints.

(** The two statements of [run] that build the initial guess.  The input
    powers and the slice map come from the channel registry, which is not
    among the sources, and are taken as arguments. *)
Definition run_guess (fiber : ActiveFiber.t) (input_powers : vec)
           (slices : InitialGuessMaker.slice_map) (npoints : nat) : result matrix :=
  let guess_maker :=
    InitialGuessMaker.init input_powers slices (_start_z fiber npoints)
      InitialGuessMaker.DEFAULT_GUESS_PARAMS in
  InitialGuessMaker.make_guess guess_maker.

End FiberAmplifierSimulation.


(** ** Sample objects, used to run the definitions on concrete inputs *)

(** The standard relation between frequency and vacuum wavelength. *)
Definition sample_freq_to_wl (f : R) : R := 299792458 / f.

(** Stand-ins with the arity of the helpers; their values play no role. *)
Definition sample_mfd (wl r na : R) : R := 2 * r + wl / na.
Definition sample_effective_area (wl r na : R) : R := PI * (r + wl / na) ^ 2.
Definition sample_overlap_integral (r w : R) : R := r / (r + w).

Definition sample_fiber (ov : option R) (area_type : string) : ActiveFiber.t :=
  {| ActiveFiber.absorption_cs_interp := fun f => 2;
     ActiveFiber.gain_cs_interp := fun f => 3;
     ActiveFiber.length_ := 10;
     ActiveFiber.core_r := 5;
     ActiveFiber.tau := 1;
     ActiveFiber.ion_number_density := 7;
     ActiveFiber.background_loss := 0;
     ActiveFiber.core_na := 1;
     ActiveFiber.overlap := ov;
     ActiveFiber.effective_area_type := area_type |}.


(** One signal, one co-propagating pump, one counter-propagating pump, one
    forward and one backward ASE channel, no Raman channels. *)
Definition sample_slices : InitialGuessMaker.slice_map :=
  fun k =>
    match k with
    | InitialGuessMaker.signal_slice => Slice 0 1
    | InitialGuessMaker.co_pump_slice => Slice 1 2
    | InitialGuessMaker.counter_pump_slice => Slice 2 3
    | InitialGuessMaker.forward_ase_slice => Slice 3 4
    | InitialGuessMaker.backward_ase_slice => Slice 4 5
    | InitialGuessMaker.forward_raman_slice => Slice 5 5
    | InitialGuessMaker.backward_raman_slice => Slice 5 5
    end.

Definition sample_powers : vec := [1; 2; 3; 0; 0].

Definition sample_z : vec := [0; 5; 10].

Definition sample_params (shape : string) : InitialGuessMaker.guess_params :=
  {| InitialGuessMaker.signal_conversion_guess := 0.5;
     InitialGuessMaker.signal_gain_shape := shape;
     InitialGuessMaker.pump_absorption_factor := 0.01;
     InitialGuessMaker.ase_output_power := 1e-3 |}.

(** A single forward ASE channel with zero input power. *)
Definition ase_only_slices : InitialGuessMaker.slice_map :=
  fun k =>
    match k with
    | InitialGuessMaker.signal_slice => Slice 0 0
    | InitialGuessMaker.co_pump_slice => Slice 0 0
    | InitialGuessMaker.counter_pump_slice => Slice 0 0
    | InitialGuessMaker.forward_ase_slice => Slice 0 1
    | InitialGuessMaker.backward_ase_slice => Slice 1 1
    | InitialGuessMaker.forward_raman_slice => Slice 1 1
    | InitialGuessMaker.backward_raman_slice => Slice 1 1
    end.

(** Stand-ins for the remaining helpers and for the spline; the spline
    stand-in takes negative values, so the clamp of the interpolant shows. *)
Definition sample_wl_to_freq (wl : R) : R := 299792458 / wl.
Definition sample_wl_bw_to_freq_bw (bw wl : R) : R := 299792458 * bw / (wl * wl).
Definition sample_wl_to_freq_array (wls : vec) : vec := map sample_wl_to_freq wls.
Definition sample_spline (x y : vec) (s : R) : R -> R := fun f => f - 5.

(** A channel with its direction replaced. *)
Definition with_direction (d : Z) (c : ActiveFiber.OpticalChannel)
  : ActiveFiber.OpticalChannel :=
  ActiveFiber.MakeChannel
    (ActiveFiber.channel_frequency c) (ActiveFiber.channel_frequency_bandwidth c)
    (ActiveFiber.channel_power c) d (ActiveFiber.channel_mfd c)
    (ActiveFiber.channel_gain c) (ActiveFiber.channel_absorption c)
    (ActiveFiber.channel_loss c).

(** A function applied to a returned value, a failure passed on. *)
Definition map_result {A B : Type} (f : A -> B) (c : result A) : result B :=
  match c with
  | Ok a => Ok (f a)
  | Raise e => Raise e
  end.

(** Two results combined by a binary operation, the first failure winning:
    what sequencing two calls and then applying the operation amounts to. *)
Definition lift2 {A B C : Type} (f : A -> B -> C) (a : result A) (b : result B)
  : result C :=
  match a, b with
  | Ok x, Ok y => Ok (f x y)
  | Raise e, _ => Raise e
  | Ok _, Raise e => Raise e
  end.

(** The arithmetic mean of two numbers. *)
Definition mean2 (a b : R) : R := (a + b) / 2.

(** ** Notions used in the statements *)

(** Membership of a row index in a slice, as a half-open range. *)
Definition in_sliceb (i : nat) (s : slice) : bool :=
  (slice_start s <=? i)%nat && (i <? slice_stop s)%nat.

(** The keys whose slice holds the index [i]. *)
Definition owners (sl : InitialGuessMaker.slice_map) (i : nat)
  : list InitialGuessMaker.slice_key :=
  filter (fun k => in_sliceb i (sl k)) InitialGuessMaker.all_keys.

(** The slices of the map partition [[0, n)]: every non-empty slice ends at
    [n] or before, and every index below [n] lies in exactly one slice. *)
Definition slices_partition (sl : InitialGuessMaker.slice_map) (n : nat) : bool :=
  forallb (fun k => (slice_stop (sl k) <=? slice_start (sl k))%nat
                    || (slice_stop (sl k) <=? n)%nat)
          InitialGuessMaker.all_keys
  && forallb (fun i => (length (owners sl i) =? 1)%nat) (seq 0 n).

(** The block of rows each category contributes to the guess. *)
Definition category_guess (self : InitialGuessMaker.t)
           (k : InitialGuessMaker.slice_key) : result matrix :=
  match k with
  | InitialGuessMaker.signal_slice => InitialGuessMaker.make_signal_guess self
  | InitialGuessMaker.co_pump_slice => Ok (InitialGuessMaker.make_co_pump_guess self)
  | InitialGuessMaker.counter_pump_slice =>
      Ok (InitialGuessMaker.make_counter_pump_guess self)
  | InitialGuessMaker.forward_ase_slice =>
      Ok (InitialGuessMaker.make_forward_ase_guess self)
  | InitialGuessMaker.backward_ase_slice =>
      Ok (InitialGuessMaker.make_backward_ase_guess self)
  | InitialGuessMaker.forward_raman_slice =>
      Ok (InitialGuessMaker.make_forward_raman_guess self)
  | InitialGuessMaker.backward_raman_slice =>
      Ok (InitialGuessMaker.make_backward_raman_guess self)
  end.

(** The blocks of the seven categories once the signal block [b] is known. *)
Definition category_rows (self : InitialGuessMaker.t) (b : matrix)
           (k : InitialGuessMaker.slice_key) : matrix :=
  match k with
  | InitialGuessMaker.signal_slice => b
  | InitialGuessMaker.co_pump_slice => InitialGuessMaker.make_co_pump_guess self
  | InitialGuessMaker.counter_pump_slice => InitialGuessMaker.make_counter_pump_guess self
  | InitialGuessMaker.forward_ase_slice => InitialGuessMaker.make_forward_ase_guess self
  | InitialGuessMaker.backward_ase_slice => InitialGuessMaker.make_backward_ase_guess self
  | InitialGuessMaker.forward_raman_slice => InitialGuessMaker.make_forward_raman_guess self
  | InitialGuessMaker.backward_raman_slice =>
      InitialGuessMaker.make_backward_raman_guess self
  end.

(** The column at which a category's guess carries the input power itself:
    the last grid point for the two categories guessed from their far end
    (counter-propagating pumps, backward ASE), the first grid point for the
    others. *)
Definition pinned_column (k : InitialGuessMaker.slice_key) (m : nat) : nat :=
  match k with
  | InitialGuessMaker.counter_pump_slice
  | InitialGuessMaker.backward_ase_slice => (m - 1)%nat
  | _ => 0%nat
  end.

(** Slice assignments run one after the other on an array of [m] columns. *)
Fixpoint write_all (blocks : list (slice * matrix)) (g : matrix) (m : nat)
  : result matrix :=
  match blocks with
  | [] => Ok g
  | sv :: rest => do g' <- setslice (fst sv) (snd sv) g m; write_all rest g' m
  end.

(** The blocks [(slice, rows)] written into an array one after the other. *)
Definition assemble (blocks : list (slice * matrix)) (g : matrix) : matrix :=
  fold_left (fun acc sv => splice (fst sv) (snd sv) acc) blocks g.

(** A block has as many rows as its slice selects among [n] rows. *)
Definition fits (n : nat) (sv : slice * matrix) : Prop :=
  length (snd sv) = slice_len (fst sv) n.

(** The slice of a block does not select row [i] among [n] rows. *)
Definition misses (n i : nat) (sv : slice * matrix) : Prop :=
  ~ (lo (fst sv) n <= i < hi (fst sv) n)%nat.

(** The position of a category among the slice assignments of
    [make_guess]. *)
Definition key_order (k : InitialGuessMaker.slice_key) : nat :=
  match k with
  | InitialGuessMaker.signal_slice => 0
  | InitialGuessMaker.co_pump_slice => 1
  | InitialGuessMaker.counter_pump_slice => 2
  | InitialGuessMaker.forward_ase_slice => 3
  | InitialGuessMaker.backward_ase_slice => 4
  | InitialGuessMaker.forward_raman_slice => 5
  | InitialGuessMaker.backward_raman_slice => 6
  end%nat.

(** A row is non-decreasing, or non-increasing, from left to right. *)
Definition nondecreasing (row : vec) : Prop :=
  forall j k, (j <= k < length row)%nat -> nth j row 0 <= nth k row 0.

Definition nonincreasing (row : vec) : Prop :=
  forall j k, (j <= k < length row)%nat -> nth k row 0 <= nth j row 0.

(** The gain shapes [make_signal_guess] knows. *)
Definition known_gain_shape (shape : string) : Prop :=
  shape = "linear"%string \/ shape = "exponential"%string.

(** A 2-D array with [n] rows of [m] entries each. *)
Definition has_shape (n m : nat) (g : matrix) : Prop :=
  length g = n /\ Forall (fun row => length row = m) g.

(** Every entry of a 2-D array is at least [b]. *)
Definition all_entries_ge (b : R) (g : matrix) : Prop :=
  Forall (Forall (fun p => b <= p)) g.

(** Entry [(i, k)] of a 2-D array. *)
Definition entry (g : matrix) (i k : nat) : R := nth k (nth i g []) 0.

(** * Properties *)

(** ** The active fiber *)

Section ActiveFiberFacts.

Variable freq_to_wl : R -> R.
Variable fundamental_mode_mfd_petermann_2 : R -> R -> R -> R.
Variable effective_area_from_mfd : R -> R -> R -> R.
Variable overlap_integral : R -> R -> R.

Abbreviation get_mfd := (ActiveFiber.get_mfd freq_to_wl fundamental_mode_mfd_petermann_2).
Abbreviation nonlinear_effective_area :=
  (ActiveFiber.nonlinear_effective_area freq_to_wl effective_area_from_mfd).
Abbreviation make_single_overlap := (ActiveFiber.make_single_overlap overlap_integral).
Abbreviation get_channel_gain := (ActiveFiber.get_channel_gain overlap_integral).
Abbreviation get_channel_absorption := (ActiveFiber.get_channel_absorption overlap_integral).
Abbreviation finite_bandwidth_gain := (ActiveFiber.finite_bandwidth_gain overlap_integral).
Abbreviation finite_bandwidth_absorption :=
  (ActiveFiber.finite_bandwidth_absorption overlap_integral).

(** C7: [get_mfd] returns the preset mode field diameter when it is
    positive, and otherwise (a preset of zero, or below) the Petermann-II
    value computed from the wavelength of the frequency, the core radius and
    the numerical aperture. *)
Theorem get_mfd_preset_or_petermann (self : ActiveFiber.t) (freq preset_mfd : R) :
  (0 < preset_mfd -> get_mfd self freq preset_mfd = preset_mfd) /\
  (preset_mfd <= 0 ->
   get_mfd self freq preset_mfd =
   fundamental_mode_mfd_petermann_2 (freq_to_wl freq)
     (ActiveFiber.core_r self) (ActiveFiber.core_na self)).
Proof.
  unfold ActiveFiber.get_mfd.
  destruct (Rlt_dec 0 preset_mfd) as [Hpos | Hnpos]; split; intros H.
  - reflexivity.
  - lra.
  - contradiction.
  - reflexivity.
Qed.

(** C8: with the effective-area type ['bessel'] the method raises
    [NotImplementedError], whatever the frequency; no value is returned. *)
Theorem nonlinear_effective_area_bessel (self : ActiveFiber.t) (freq : R) :
  ActiveFiber.effective_area_type self = "bessel"%string ->
  nonlinear_effective_area self freq = Raise NotImplementedError.
Proof.
  intros Htype.
  unfold ActiveFiber.nonlinear_effective_area.
  rewrite Htype. reflexivity.
Qed.

(** C9: with an effective-area type other than ['core_area'], ['gaussian']
    and ['bessel'] the method raises nothing and returns [None]. *)
Theorem nonlinear_effective_area_unknown (self : ActiveFiber.t) (freq : R) :
  ActiveFiber.effective_area_type self <> "core_area"%string ->
  ActiveFiber.effective_area_type self <> "gaussian"%string ->
  ActiveFiber.effective_area_type self <> "bessel"%string ->
  nonlinear_effective_area self freq = Ok None.
Proof.
  intros Hc Hg Hb.
  unfold ActiveFiber.nonlinear_effective_area.
  apply String.eqb_neq in Hc, Hg, Hb.
  rewrite Hc, Hg, Hb. reflexivity.
Qed.

Lemma mean_pair (a b : R) : Np.mean [a; b] = mean2 a b.
Proof.
  unfold Np.mean, Np.sum, mean2. simpl. lra.
Qed.

Lemma make_single_overlap_some (self : ActiveFiber.t) (r : R) :
  ActiveFiber.overlap self <> None \/ 0 < r ->
  exists o, make_single_overlap self r = Some o.
Proof.
  unfold ActiveFiber.make_single_overlap, ActiveFiber.overlap_is_constant.
  intros [Hconst | Hpos].
  - destruct (ActiveFiber.overlap self) as [o |] eqn:E.
    + exists o. reflexivity.
    + congruence.
  - destruct (ActiveFiber.overlap self) as [o |] eqn:E.
    + exists o. reflexivity.
    + destruct (Rlt_dec 0 r); [eexists; reflexivity | contradiction].
Qed.

(** C10: the finite-bandwidth gain is the arithmetic mean of the channel
    gain at the two band edges [f - B/2] and [f + B/2], and the
    finite-bandwidth absorption the same mean of the channel absorption; a
    failure of an edge evaluation is the failure of the whole.  With a
    constant overlap or a positive mode-field radius both edge evaluations
    return, and the results are the means of those two values. *)
Theorem finite_bandwidth_edge_mean (self : ActiveFiber.t) (f B r : R) :
  finite_bandwidth_gain self f B r =
    lift2 mean2 (get_channel_gain self (f - B / 2) r)
                (get_channel_gain self (f + B / 2) r) /\
  finite_bandwidth_absorption self f B r =
    lift2 mean2 (get_channel_absorption self (f - B / 2) r)
                (get_channel_absorption self (f + B / 2) r) /\
  (ActiveFiber.overlap self <> None \/ 0 < r ->
   exists o,
     make_single_overlap self r = Some o /\
     finite_bandwidth_gain self f B r =
       Ok ((ActiveFiber.gain_cs_interp self (f - B / 2) * o
              * ActiveFiber.ion_number_density self
            + ActiveFiber.gain_cs_interp self (f + B / 2) * o
              * ActiveFiber.ion_number_density self) / 2) /\
     finite_bandwidth_absorption self f B r =
       Ok ((ActiveFiber.absorption_cs_interp self (f - B / 2) * o
              * ActiveFiber.ion_number_density self
            + ActiveFiber.absorption_cs_interp self (f + B / 2) * o
              * ActiveFiber.ion_number_density self) / 2)).
Proof.
  unfold ActiveFiber.finite_bandwidth_gain, ActiveFiber.finite_bandwidth_absorption,
    ActiveFiber.get_channel_gain, ActiveFiber.get_channel_absorption.
  split; [| split].
  - destruct (make_single_overlap self r) as [o |]; simpl.
    + now rewrite mean_pair.
    + reflexivity.
  - destruct (make_single_overlap self r) as [o |]; simpl.
    + now rewrite mean_pair.
    + reflexivity.
  - intros Hov.
    destruct (make_single_overlap_some self r Hov) as [o Ho].
    exists o. rewrite Ho. simpl. rewrite !mean_pair.
    unfold mean2. repeat split.
Qed.

End ActiveFiberFacts.

Lemma get_mfd_preset_or_petermann_witness :
  ActiveFiber.get_mfd sample_freq_to_wl sample_mfd (sample_fiber None "core_area") 3 4 = 4 /\
  ActiveFiber.get_mfd sample_freq_to_wl sample_mfd (sample_fiber None "core_area") 3 0 =
    sample_mfd (sample_freq_to_wl 3) 5 1.
Proof.
  split.
  - apply (get_mfd_preset_or_petermann sample_freq_to_wl sample_mfd
             (sample_fiber None "core_area") 3 4). lra.
  - apply (get_mfd_preset_or_petermann sample_freq_to_wl sample_mfd
             (sample_fiber None "core_area") 3 0). lra.
Defined.

Lemma nonlinear_effective_area_bessel_witness :
  ActiveFiber.nonlinear_effective_area sample_freq_to_wl sample_effective_area
    (sample_fiber None "bessel") 3 = Raise NotImplementedError.
Proof.
  apply (nonlinear_effective_area_bessel sample_freq_to_wl sample_effective_area
           (sample_fiber None "bessel") 3).
  reflexivity.
Defined.

Lemma nonlinear_effective_area_unknown_witness :
  ActiveFiber.nonlinear_effective_area sample_freq_to_wl sample_effective_area
    (sample_fiber None "Gaussian") 3 = Ok None.
Proof.
  apply (nonlinear_effective_area_unknown sample_freq_to_wl sample_effective_area
           (sample_fiber None "Gaussian") 3); simpl; discriminate.
Defined.

Lemma finite_bandwidth_edge_mean_witness :
  exists o,
    ActiveFiber.make_single_overlap sample_overlap_integral (sample_fiber None "core_area") 5
      = Some o /\
    ActiveFiber.finite_bandwidth_gain sample_overlap_integral
      (sample_fiber None "core_area") 100 10 5 = Ok ((3 * o * 7 + 3 * o * 7) / 2) /\
    ActiveFiber.finite_bandwidth_absorption sample_overlap_integral
      (sample_fiber None "core_area") 100 10 5 = Ok ((2 * o * 7 + 2 * o * 7) / 2).
Proof.
  apply (finite_bandwidth_edge_mean sample_overlap_integral
           (sample_fiber None "core_area") 100 10 5).
  right. lra.
Defined.

(** ** Linear interpolation *)

Lemma length_linspace_2d (s e : vec) (m : nat) :
  length s = length e -> length (linspace_2d s e m) = length s.
Proof.
  intros H. unfold linspace_2d.
  rewrite length_map, length_combine. lia.
Qed.

Lemma linspace_2d_rows (s e : vec) (m : nat) :
  Forall (fun row => length row = m) (linspace_2d s e m).
Proof.
  unfold linspace_2d. apply Forall_forall. intros row Hin.
  apply in_map_iff in Hin. destruct Hin as [se [<- _]].
  now rewrite length_map, length_seq.
Qed.

Lemma nth_linspace_2d (s e : vec) (m i : nat) :
  (i < length s)%nat -> length s = length e ->
  nth i (linspace_2d s e m) [] =
  map (fun k : nat => nth i s 0 + INR k * (nth i e 0 - nth i s 0) / INR (m - 1))
      (seq 0 m).
Proof.
  intros Hi Hlen. unfold linspace_2d.
  set (f := fun se : R * R => map _ (seq 0 m)).
  rewrite (nth_indep _ [] (f (0, 0))).
  - rewrite map_nth, combine_nth by assumption. reflexivity.
  - rewrite length_map, length_combine. lia.
Qed.

Lemma entry_linspace_2d (s e : vec) (m i k : nat) :
  (i < length s)%nat -> length s = length e -> (k < m)%nat ->
  entry (linspace_2d s e m) i k =
  nth i s 0 + INR k * (nth i e 0 - nth i s 0) / INR (m - 1).
Proof.
  intros Hi Hlen Hk. unfold entry.
  rewrite nth_linspace_2d by assumption.
  set (f := fun k0 : nat => _).
  rewrite (nth_indep _ 0 (f 0%nat)) by now rewrite length_map, length_seq.
  rewrite map_nth, seq_nth by assumption. reflexivity.
Qed.

Lemma INR_pred_pos (m : nat) : (2 <= m)%nat -> 0 < INR (m - 1).
Proof.
  intros Hm. apply lt_0_INR. lia.
Qed.

Lemma entry_linspace_2d_first (s e : vec) (m i : nat) :
  (i < length s)%nat -> length s = length e -> (2 <= m)%nat ->
  entry (linspace_2d s e m) i 0 = nth i s 0.
Proof.
  intros Hi Hlen Hm.
  rewrite entry_linspace_2d by (assumption || lia).
  pose proof (INR_pred_pos m Hm). simpl. field. lra.
Qed.

Lemma entry_linspace_2d_last (s e : vec) (m i : nat) :
  (i < length s)%nat -> length s = length e -> (2 <= m)%nat ->
  entry (linspace_2d s e m) i (m - 1) = nth i e 0.
Proof.
  intros Hi Hlen Hm.
  rewrite entry_linspace_2d by (assumption || lia).
  pose proof (INR_pred_pos m Hm). field. lra.
Qed.

(** A convex combination of two numbers that are at least [b] is at least
    [b]. *)
Lemma interpolate_ge (b s e k d : R) :
  b <= s -> b <= e -> 0 <= k <= d -> 0 < d ->
  b <= s + k * (e - s) / d.
Proof.
  intros Hs He Hk Hd.
  replace (s + k * (e - s) / d) with (b + ((s - b) * (d - k) + k * (e - b)) / d)
    by (field; lra).
  assert (0 <= ((s - b) * (d - k) + k * (e - b)) / d); [| lra].
  apply Rmult_le_pos; [nra |].
  left. now apply Rinv_0_lt_compat.
Qed.

Lemma linspace_2d_ge (b : R) (s e : vec) (m : nat) :
  Forall (fun p => b <= p) s -> Forall (fun p => b <= p) e -> (2 <= m)%nat ->
  all_entries_ge b (linspace_2d s e m).
Proof.
  intros Hs He Hm. unfold all_entries_ge, linspace_2d.
  apply Forall_forall. intros row Hrow.
  apply in_map_iff in Hrow. destruct Hrow as [[si ei] [<- Hin]].
  apply Forall_forall. intros x Hx.
  apply in_map_iff in Hx. destruct Hx as [k [<- Hk]].
  apply in_seq in Hk. simpl.
  rewrite Forall_forall in Hs, He.
  apply interpolate_ge.
  - apply Hs. eapply in_combine_l; eassumption.
  - apply He. eapply in_combine_r; eassumption.
  - split; [apply pos_INR | apply le_INR; lia].
  - now apply INR_pred_pos.
Qed.

(** Reversing a linear ramp swaps its endpoints. *)
Lemma linspace_2d_rev (s e : vec) (m : nat) :
  length s = length e -> (2 <= m)%nat ->
  map (@rev R) (linspace_2d s e m) = linspace_2d e s m.
Proof.
  intros Hlen Hm. unfold linspace_2d.
  rewrite map_map.
  revert e Hlen. induction s as [| si s IH]; intros [| ei e] Hlen; simpl in *;
    try discriminate; [reflexivity |].
  f_equal; [| apply IH; congruence].
  apply (nth_ext _ _ 0 0).
  - now rewrite length_rev, !length_map.
  - intros k Hk. rewrite length_rev, length_map, length_seq in Hk.
    rewrite rev_nth by (rewrite length_map, length_seq; assumption).
    rewrite length_map, length_seq.
    set (f := fun k0 : nat => si + _).
    set (g := fun k0 : nat => ei + _).
    rewrite (nth_indep _ 0 (f 0%nat)) by (rewrite length_map, length_seq; lia).
    rewrite (nth_indep _ 0 (g 0%nat)) by (rewrite length_map, length_seq; lia).
    rewrite !map_nth, !seq_nth by lia.
    subst f g. cbv beta. simpl Nat.add.
    pose proof (INR_pred_pos m Hm) as Hd.
    replace (m - S k)%nat with ((m - 1) - k)%nat by lia.
    rewrite minus_INR by lia.
    field. lra.
Qed.

(** ** Slicing and slice assignment *)

Section Slicing.

Context {A : Type}.

Lemma length_getslice (s : slice) (a : list A) :
  length (getslice s a) = slice_len s (length a).
Proof.
  unfold getslice, slice_len, hi, lo.
  rewrite length_firstn, length_skipn. lia.
Qed.

Lemma nth_getslice (s : slice) (a : list A) (i : nat) (d : A) :
  (i < slice_len s (length a))%nat ->
  nth i (getslice s a) d = nth (slice_start s + i) a d.
Proof.
  intros Hi. unfold getslice.
  rewrite nth_firstn.
  apply Nat.ltb_lt in Hi. rewrite Hi.
  rewrite nth_skipn. f_equal.
  apply Nat.ltb_lt in Hi. unfold slice_len, hi, lo in *. lia.
Qed.

End Slicing.

Lemma mapM_broadcast_vec_exact (m : nat) (v : matrix) :
  Forall (fun row => length row = m) v -> mapM (broadcast_vec m) v = Ok v.
Proof.
  induction 1 as [| row v Hrow _ IH]; simpl.
  - reflexivity.
  - unfold broadcast_vec at 1.
    apply Nat.eqb_eq in Hrow. rewrite Hrow. simpl.
    now rewrite IH.
Qed.

Lemma broadcast_to_exact (k m : nat) (v : matrix) :
  has_shape k m v -> broadcast_to k m v = Ok v.
Proof.
  intros [Hk Hrows]. unfold broadcast_to.
  rewrite mapM_broadcast_vec_exact by assumption. simpl.
  apply Nat.eqb_eq in Hk. now rewrite Hk.
Qed.

Lemma setslice_exact (s : slice) (v g : matrix) (m : nat) :
  has_shape (slice_len s (length g)) m v ->
  setslice s v g m = Ok (splice s v g).
Proof.
  intros Hv. unfold setslice.
  now rewrite broadcast_to_exact.
Qed.

Lemma length_splice (s : slice) (v g : matrix) :
  length v = slice_len s (length g) ->
  length (splice s v g) = length g.
Proof.
  intros Hv. unfold splice.
  rewrite !length_app, length_firstn, length_skipn, Hv.
  unfold slice_len, hi, lo. lia.
Qed.

Lemma nth_splice_in (s : slice) (v g : matrix) (i : nat) (d : vec) :
  length v = slice_len s (length g) ->
  (lo s (length g) <= i < hi s (length g))%nat ->
  nth i (splice s v g) d = nth (i - lo s (length g)) v d.
Proof.
  intros Hv Hi. unfold splice.
  assert (Hlo : length (firstn (lo s (length g)) g) = lo s (length g)).
  { rewrite length_firstn. unfold lo. lia. }
  rewrite app_nth2 by lia. rewrite Hlo.
  apply app_nth1. rewrite Hv. unfold slice_len. lia.
Qed.

Lemma nth_splice_out (s : slice) (v g : matrix) (i : nat) (d : vec) :
  length v = slice_len s (length g) ->
  ~ (lo s (length g) <= i < hi s (length g))%nat ->
  nth i (splice s v g) d = nth i g d.
Proof.
  intros Hv Hi. unfold splice.
  assert (Hlo : length (firstn (lo s (length g)) g) = lo s (length g)).
  { rewrite length_firstn. unfold lo. lia. }
  destruct (Nat.lt_ge_cases i (lo s (length g))) as [Hlt | Hge].
  - rewrite app_nth1 by lia.
    rewrite nth_firstn. apply Nat.ltb_lt in Hlt. now rewrite Hlt.
  - rewrite app_nth2 by lia. rewrite Hlo.
    rewrite app_nth2 by (rewrite Hv; unfold slice_len; lia).
    rewrite nth_skipn. f_equal.
    rewrite Hv. unfold slice_len in *. lia.
Qed.

Lemma splice_rows (m : nat) (s : slice) (v g : matrix) :
  Forall (fun row => length row = m) v ->
  Forall (fun row => length row = m) g ->
  Forall (fun row => length row = m) (splice s v g).
Proof.
  intros Hv Hg. unfold splice.
  pose proof Hg as Hg'.
  rewrite <- (firstn_skipn (lo s (length g)) g) in Hg.
  rewrite <- (firstn_skipn (lo s (length g) + slice_len s (length g)) g) in Hg'.
  apply Forall_app in Hg, Hg'.
  rewrite !Forall_app. tauto.
Qed.

(** ** Writing several blocks *)

Lemma length_assemble (blocks : list (slice * matrix)) (g : matrix) :
  Forall (fits (length g)) blocks ->
  length (assemble blocks g) = length g.
Proof.
  revert g. induction blocks as [| [s v] blocks IH]; intros g Hfit; simpl.
  - reflexivity.
  - inversion Hfit as [| ? ? Hsv Hrest]; subst. unfold fits in Hsv. simpl in Hsv.
    unfold assemble in IH. rewrite IH; rewrite length_splice by assumption; trivial.
Qed.

Lemma assemble_rows (m : nat) (blocks : list (slice * matrix)) (g : matrix) :
  Forall (fun sv => Forall (fun row => length row = m) (snd sv)) blocks ->
  Forall (fun row => length row = m) g ->
  Forall (fun row => length row = m) (assemble blocks g).
Proof.
  revert g. induction blocks as [| [s v] blocks IH]; intros g Hrows Hg; simpl.
  - assumption.
  - inversion Hrows; subst. apply IH; [assumption |].
    now apply splice_rows.
Qed.

Lemma nth_assemble_out (blocks : list (slice * matrix)) (g : matrix) (i : nat) (d : vec) :
  Forall (fits (length g)) blocks ->
  Forall (misses (length g) i) blocks ->
  nth i (assemble blocks g) d = nth i g d.
Proof.
  revert g. induction blocks as [| [s v] blocks IH]; intros g Hfit Hmiss; simpl.
  - reflexivity.
  - inversion Hfit as [| ? ? Hsv Hfit']; subst.
    inversion Hmiss as [| ? ? Hi Hmiss']; subst.
    unfold fits in Hsv. unfold misses in Hi. simpl in Hsv, Hi.
    unfold assemble in IH. rewrite IH.
    + now apply nth_splice_out.
    + now rewrite length_splice.
    + now rewrite length_splice.
Qed.

Lemma nth_assemble_in (before after : list (slice * matrix)) (s : slice)
      (v g : matrix) (i : nat) (d : vec) :
  Forall (fits (length g)) (before ++ (s, v) :: after) ->
  (lo s (length g) <= i < hi s (length g))%nat ->
  Forall (misses (length g) i) after ->
  nth i (assemble (before ++ (s, v) :: after) g) d = nth (i - lo s (length g)) v d.
Proof.
  revert g. induction before as [| [s' v'] before IH]; intros g Hfit Hi Hmiss; simpl.
  - inversion Hfit as [| ? ? Hsv Hfit']; subst. unfold fits in Hsv. simpl in Hsv.
    change (nth i (assemble after (splice s v g)) d = nth (i - lo s (length g)) v d).
    rewrite nth_assemble_out.
    + now apply nth_splice_in.
    + now rewrite length_splice.
    + now rewrite length_splice.
  - inversion Hfit as [| ? ? Hsv Hfit']; subst. unfold fits in Hsv. simpl in Hsv.
    change (nth i (assemble (before ++ (s, v) :: after) (splice s' v' g)) d
            = nth (i - lo s (length g)) v d).
    rewrite <- (length_splice s' v' g Hsv).
    apply IH; rewrite length_splice; assumption.
Qed.

(** ** The slice partition *)

Lemma all_keys_complete (k : InitialGuessMaker.slice_key) :
  In k InitialGuessMaker.all_keys.
Proof.
  destruct k; simpl; tauto.
Qed.

Lemma all_keys_NoDup : NoDup InitialGuessMaker.all_keys.
Proof.
  unfold InitialGuessMaker.all_keys.
  repeat (constructor; [simpl; intuition discriminate |]).
  constructor.
Qed.

Lemma in_sliceb_true (i : nat) (s : slice) :
  in_sliceb i s = true <-> (slice_start s <= i < slice_stop s)%nat.
Proof.
  unfold in_sliceb. rewrite andb_true_iff, Nat.leb_le, Nat.ltb_lt. tauto.
Qed.

Lemma in_sliceb_clamped (i n : nat) (s : slice) :
  (i < n)%nat ->
  in_sliceb i s = true <-> (lo s n <= i < hi s n)%nat.
Proof.
  intros Hi. rewrite in_sliceb_true. unfold lo, hi. lia.
Qed.

Section Partition.

Variable sl : InitialGuessMaker.slice_map.
Variable n : nat.
Hypothesis Hpart : slices_partition sl n = true.

Lemma partition_within (k : InitialGuessMaker.slice_key) (i : nat) :
  in_sliceb i (sl k) = true -> (i < n)%nat.
Proof.
  intros Hin. apply in_sliceb_true in Hin.
  unfold slices_partition in Hpart. apply andb_true_iff in Hpart.
  destruct Hpart as [Hbound _].
  rewrite forallb_forall in Hbound.
  specialize (Hbound k (all_keys_complete k)).
  apply orb_true_iff in Hbound. rewrite !Nat.leb_le in Hbound. lia.
Qed.

Lemma partition_owners (i : nat) :
  (i < n)%nat -> exists k, owners sl i = [k].
Proof.
  intros Hi.
  unfold slices_partition in Hpart. apply andb_true_iff in Hpart.
  destruct Hpart as [_ Hone].
  rewrite forallb_forall in Hone.
  assert (Hin : In i (seq 0 n)) by (apply in_seq; lia).
  specialize (Hone i Hin). apply Nat.eqb_eq in Hone.
  destruct (owners sl i) as [| k [| k' rest]]; simpl in Hone; try discriminate.
  now exists k.
Qed.

Lemma partition_covers (i : nat) :
  (i < n)%nat -> exists k, in_sliceb i (sl k) = true.
Proof.
  intros Hi. destruct (partition_owners i Hi) as [k Hk].
  exists k.
  assert (Hin : In k (owners sl i)) by (rewrite Hk; now left).
  apply filter_In in Hin. tauto.
Qed.

Lemma partition_disjoint (k k' : InitialGuessMaker.slice_key) (i : nat) :
  in_sliceb i (sl k) = true -> in_sliceb i (sl k') = true -> k = k'.
Proof.
  intros Hk Hk'.
  pose proof (partition_within k i Hk) as Hi.
  destruct (partition_owners i Hi) as [k0 Hk0].
  assert (H1 : In k (owners sl i))
    by (apply filter_In; split; [apply all_keys_complete | assumption]).
  assert (H2 : In k' (owners sl i))
    by (apply filter_In; split; [apply all_keys_complete | assumption]).
  rewrite Hk0 in H1, H2. simpl in H1, H2.
  destruct H1 as [<- | []], H2 as [<- | []]. reflexivity.
Qed.

Lemma partition_slice_len (k : InitialGuessMaker.slice_key) :
  slice_len (sl k) n = (slice_stop (sl k) - slice_start (sl k))%nat.
Proof.
  unfold slices_partition in Hpart. apply andb_true_iff in Hpart.
  destruct Hpart as [Hbound _].
  rewrite forallb_forall in Hbound.
  specialize (Hbound k (all_keys_complete k)).
  apply orb_true_iff in Hbound. rewrite !Nat.leb_le in Hbound.
  unfold slice_len, hi, lo. lia.
Qed.

(** Blocks written through a partition: every row of the result is the row
    of the block that owns it, and each block can be read back. *)
Variable blk : InitialGuessMaker.slice_key -> matrix.
Variable g0 : matrix.
Hypothesis Hg0 : length g0 = n.
Hypothesis Hblk : forall k, length (blk k) = slice_len (sl k) n.

Let blocks := map (fun k => (sl k, blk k)) InitialGuessMaker.all_keys.

Lemma blocks_fit : Forall (fits (length g0)) blocks.
Proof.
  subst blocks. rewrite Hg0. apply Forall_forall.
  intros sv Hin. apply in_map_iff in Hin. destruct Hin as [k [<- _]].
  unfold fits. simpl. apply Hblk.
Qed.

Lemma nth_assemble_partition (k : InitialGuessMaker.slice_key) (i : nat) (d : vec) :
  in_sliceb i (sl k) = true ->
  nth i (assemble blocks g0) d = nth (i - slice_start (sl k)) (blk k) d.
Proof.
  intros Hin.
  pose proof (partition_within k i Hin) as Hi.
  destruct (in_split k _ (all_keys_complete k)) as [before [after Hsplit]].
  pose proof blocks_fit as Hfit.
  pose proof all_keys_NoDup as Hnd.
  subst blocks. rewrite Hsplit in Hfit, Hnd |- *.
  rewrite map_app in Hfit |- *. simpl in Hfit |- *.
  rewrite nth_assemble_in.
  - f_equal. rewrite Hg0. apply in_sliceb_true in Hin. unfold lo. lia.
  - assumption.
  - rewrite Hg0. now apply in_sliceb_clamped.
  - apply Forall_forall. intros sv Hsv.
    apply in_map_iff in Hsv. destruct Hsv as [k' [<- Hk']].
    unfold misses. simpl. rewrite Hg0. intros Hin'.
    apply in_sliceb_clamped in Hin'; [| assumption].
    assert (k' = k) by now apply (partition_disjoint k' k i).
    subst k'. apply NoDup_remove_2 in Hnd.
    apply Hnd. apply in_or_app. now right.
Qed.

Lemma length_assemble_partition : length (assemble blocks g0) = n.
Proof.
  rewrite length_assemble; [assumption | apply blocks_fit].
Qed.

Lemma getslice_assemble_partition (k : InitialGuessMaker.slice_key) :
  getslice (sl k) (assemble blocks g0) = blk k.
Proof.
  apply (nth_ext _ _ [] []).
  - now rewrite length_getslice, length_assemble_partition, Hblk.
  - intros j Hj.
    rewrite length_getslice, length_assemble_partition in Hj.
    rewrite nth_getslice by now rewrite length_assemble_partition.
    rewrite (nth_assemble_partition k).
    + f_equal. lia.
    + apply in_sliceb_true. rewrite partition_slice_len in Hj. lia.
Qed.

End Partition.

(** ** The blocks of the guess *)

Lemma has_shape_linspace_2d (s e : vec) (k m : nat) :
  length s = k -> length e = k -> has_shape k m (linspace_2d s e m).
Proof.
  intros Hs He. split.
  - rewrite length_linspace_2d; congruence.
  - apply linspace_2d_rows.
Qed.

Lemma has_shape_zeros (n m : nat) : has_shape n m (zeros n m).
Proof.
  unfold zeros. split.
  - apply repeat_length.
  - apply Forall_forall. intros row Hrow.
    apply repeat_spec in Hrow. subst row. apply repeat_length.
Qed.

Lemma write_all_assemble (m : nat) (blocks : list (slice * matrix)) (g : matrix) :
  Forall (fun sv => has_shape (slice_len (fst sv) (length g)) m (snd sv)) blocks ->
  write_all blocks g m = Ok (assemble blocks g).
Proof.
  revert g. induction blocks as [| [s v] blocks IH]; intros g Hshape; simpl.
  - reflexivity.
  - inversion Hshape as [| ? ? Hsv Hrest]; subst. simpl in Hsv.
    rewrite setslice_exact by assumption. simpl.
    apply IH. destruct Hsv as [Hlen _].
    now rewrite length_splice.
Qed.

Lemma Forall_getslice {A : Type} (P : A -> Prop) (s : slice) (a : list A) :
  Forall P a -> Forall P (getslice s a).
Proof.
  intros Ha. unfold getslice.
  set (a' := skipn _ a).
  assert (Ha' : Forall P a').
  { subst a'. rewrite <- (firstn_skipn (lo s (length a)) a) in Ha.
    apply Forall_app in Ha. tauto. }
  rewrite <- (firstn_skipn (slice_len s (length a)) a') in Ha'.
  apply Forall_app in Ha'. tauto.
Qed.

Lemma last_item_cons (x : R) (a : vec) : exists y, last_item (x :: a) = Ok y.
Proof.
  unfold last_item.
  destruct (rev (x :: a)) as [| y r] eqn:E.
  - apply (f_equal (@length R)) in E. rewrite length_rev in E. discriminate.
  - now exists y.
Qed.

Section Blocks.

Variable input_powers : vec.
Variable sl : InitialGuessMaker.slice_map.
Variable z : vec.
Variable params : InitialGuessMaker.guess_params.

Let self := InitialGuessMaker.init input_powers sl z params.
Let n := length input_powers.
Let m := length z.

Lemma has_shape_co_pump :
  has_shape (slice_len (sl InitialGuessMaker.co_pump_slice) n) m
            (InitialGuessMaker.make_co_pump_guess self).
Proof.
  apply has_shape_linspace_2d; simpl; unfold scale;
    rewrite ?length_map; apply length_getslice.
Qed.

Lemma has_shape_counter_pump :
  has_shape (slice_len (sl InitialGuessMaker.counter_pump_slice) n) m
            (InitialGuessMaker.make_counter_pump_guess self).
Proof.
  apply has_shape_linspace_2d; simpl; unfold scale;
    rewrite ?length_map; apply length_getslice.
Qed.

Lemma has_shape_forward_ase :
  has_shape (slice_len (sl InitialGuessMaker.forward_ase_slice) n) m
            (InitialGuessMaker.make_forward_ase_guess self).
Proof.
  apply has_shape_linspace_2d; simpl; unfold full_like;
    rewrite ?length_map; apply length_getslice.
Qed.

Lemma has_shape_backward_ase :
  has_shape (slice_len (sl InitialGuessMaker.backward_ase_slice) n) m
            (InitialGuessMaker.make_backward_ase_guess self).
Proof.
  apply has_shape_linspace_2d; simpl; unfold full_like;
    rewrite ?length_map; apply length_getslice.
Qed.

Lemma has_shape_forward_raman :
  has_shape (slice_len (sl InitialGuessMaker.forward_raman_slice) n) m
            (InitialGuessMaker.make_forward_raman_guess self).
Proof.
  apply has_shape_linspace_2d; simpl;
    rewrite ?length_map; apply length_getslice.
Qed.

Lemma has_shape_backward_raman :
  has_shape (slice_len (sl InitialGuessMaker.backward_raman_slice) n) m
            (InitialGuessMaker.make_backward_raman_guess self).
Proof.
  apply has_shape_linspace_2d; simpl; apply length_getslice.
Qed.

Lemma has_shape_exponential (start end_ : vec) (k : nat) (b : matrix) :
  length start = k -> length end_ = k ->
  InitialGuessMaker.exponential_guess self start end_ = Ok b ->
  has_shape k m b.
Proof.
  intros Hs He. unfold InitialGuessMaker.exponential_guess.
  destruct (last_item (InitialGuessMaker.z self)) as [zl | e]; simpl; [| discriminate].
  intros [= <-]. split.
  - rewrite length_map, length_combine. lia.
  - apply Forall_forall. intros row Hrow.
    apply in_map_iff in Hrow. destruct Hrow as [se [<- _]].
    apply length_map.
Qed.

(** The signal block, when it is returned, has one row per signal channel. *)
Lemma has_shape_signal (b : matrix) :
  InitialGuessMaker.make_signal_guess self = Ok b ->
  has_shape (slice_len (sl InitialGuessMaker.signal_slice) n) m b.
Proof.
  unfold InitialGuessMaker.make_signal_guess.
  destruct (_ =? "linear")%string.
  - intros [= <-].
    apply has_shape_linspace_2d; simpl; rewrite ?length_map; apply length_getslice.
  - destruct (_ =? "exponential")%string; [| discriminate].
    apply has_shape_exponential; simpl; rewrite ?length_map; apply length_getslice.
Qed.

(** With a known gain shape and a non-empty grid the signal block is
    returned. *)
Lemma make_signal_guess_returns :
  known_gain_shape (InitialGuessMaker.signal_gain_shape params) ->
  (1 <= m)%nat ->
  exists b, InitialGuessMaker.make_signal_guess self = Ok b.
Proof.
  intros Hshape Hm. unfold InitialGuessMaker.make_signal_guess. simpl.
  destruct Hshape as [-> | ->]; simpl.
  - eexists. reflexivity.
  - unfold InitialGuessMaker.exponential_guess. simpl.
    subst m. destruct z as [| z0 zs]; [simpl in Hm; lia |].
    destruct (last_item_cons z0 zs) as [y ->]. simpl.
    eexists. reflexivity.
Qed.

Lemma category_rows_shape (b : matrix) (k : InitialGuessMaker.slice_key) :
  InitialGuessMaker.make_signal_guess self = Ok b ->
  has_shape (slice_len (sl k) n) m (category_rows self b k).
Proof.
  intros Hb. destruct k; simpl.
  - now apply has_shape_signal.
  - apply has_shape_co_pump.
  - apply has_shape_counter_pump.
  - apply has_shape_forward_ase.
  - apply has_shape_backward_ase.
  - apply has_shape_forward_raman.
  - apply has_shape_backward_raman.
Qed.

(** Row [j] of a category's block carries input power [j] of the category
    at the pinned column (for signals: under the linear shape). *)
Lemma category_rows_pinned (b : matrix) (k : InitialGuessMaker.slice_key) (j : nat) :
  InitialGuessMaker.make_signal_guess self = Ok b ->
  (k = InitialGuessMaker.signal_slice ->
   InitialGuessMaker.signal_gain_shape params = "linear"%string) ->
  (2 <= m)%nat ->
  (j < slice_len (sl k) n)%nat ->
  entry (category_rows self b k) j (pinned_column k m)
  = nth j (getslice (sl k) input_powers) 0.
Proof.
  intros Hb Hlin Hm Hj. unfold n in Hj.
  rewrite <- (length_getslice (sl k) input_powers) in Hj.
  destruct k; simpl category_rows; simpl pinned_column.
  - unfold InitialGuessMaker.make_signal_guess in Hb. simpl in Hb.
    rewrite (Hlin eq_refl) in Hb. simpl in Hb. injection Hb as <-.
    apply entry_linspace_2d_first; trivial. now rewrite length_map.
  - apply entry_linspace_2d_first; trivial. simpl. unfold scale. now rewrite length_map.
  - apply entry_linspace_2d_last; trivial.
    + simpl. unfold scale. now rewrite length_map.
    + simpl. unfold scale. now rewrite length_map.
  - apply entry_linspace_2d_first; trivial. simpl. unfold full_like. now rewrite length_map.
  - apply entry_linspace_2d_last; trivial.
    + simpl. unfold full_like. now rewrite length_map.
    + simpl. unfold full_like. now rewrite length_map.
  - apply entry_linspace_2d_first; trivial. simpl. now rewrite length_map.
  - apply entry_linspace_2d_first; trivial.
Qed.

Lemma category_guess_rows (b : matrix) (k : InitialGuessMaker.slice_key) :
  InitialGuessMaker.make_signal_guess self = Ok b ->
  category_guess self k = Ok (category_rows self b k).
Proof.
  intros Hb. destruct k; simpl; trivial.
Qed.

(** [make_guess] is the signal block followed by the seven slice
    assignments. *)
Lemma make_guess_write_all :
  InitialGuessMaker.make_guess self =
  do b <- InitialGuessMaker.make_signal_guess self;
  write_all (map (fun k => (sl k, category_rows self b k)) InitialGuessMaker.all_keys)
            (zeros n m) m.
Proof.
  unfold InitialGuessMaker.make_guess.
  destruct (InitialGuessMaker.make_signal_guess self) as [b | e]; simpl; [| reflexivity].
  repeat match goal with
         | |- bind ?c _ = bind ?c _ => destruct c; simpl; [| reflexivity]
         end.
  reflexivity.
Qed.

Lemma make_guess_assemble (b : matrix) :
  InitialGuessMaker.make_signal_guess self = Ok b ->
  InitialGuessMaker.make_guess self =
  Ok (assemble (map (fun k => (sl k, category_rows self b k)) InitialGuessMaker.all_keys)
               (zeros n m)).
Proof.
  intros Hb. rewrite make_guess_write_all, Hb. cbn [bind].
  apply write_all_assemble.
  apply Forall_forall. intros sv Hsv.
  apply in_map_iff in Hsv. destruct Hsv as [k [<- _]]. simpl fst. simpl snd.
  destruct (has_shape_zeros n m) as [-> _].
  now apply category_rows_shape.
Qed.

End Blocks.

(** ** The initial guess *)

Lemma nth_map_in {A B : Type} (f : A -> B) (l : list A) (i : nat) (d : A) (d' : B) :
  (i < length l)%nat -> nth i (map f l) d' = f (nth i l d).
Proof.
  intros Hi.
  rewrite (nth_indep _ d' (f d)) by now rewrite length_map.
  apply map_nth.
Qed.

Lemma last_item_nth (a : vec) (y : R) :
  last_item a = Ok y -> (1 <= length a)%nat /\ nth (length a - 1) a 0 = y.
Proof.
  unfold last_item. intros H.
  destruct (rev a) as [| x r] eqn:E; [discriminate |].
  injection H as ->.
  assert (Hlen : (1 <= length a)%nat).
  { apply (f_equal (@length R)) in E. rewrite length_rev in E. simpl in E. lia. }
  split; [assumption |].
  replace (length a - 1)%nat with (length a - S 0)%nat by lia.
  rewrite <- rev_nth by lia. now rewrite E.
Qed.

(** On a non-empty grid the exponential guess is returned, one row per
    channel, with the entries the source computes. *)
Lemma exponential_guess_entries (self : InitialGuessMaker.t)
      (start end_ : vec) (z_last : R) :
  length start = length end_ ->
  last_item (InitialGuessMaker.z self) = Ok z_last ->
  exists guess,
    InitialGuessMaker.exponential_guess self start end_ = Ok guess /\
    has_shape (length start) (length (InitialGuessMaker.z self)) guess /\
    forall i k, (i < length start)%nat -> (k < length (InitialGuessMaker.z self))%nat ->
      entry guess i k
        = nth i start 0
          * exp (ln (nth i end_ 0 / nth i start 0) / z_last
                 * nth k (InitialGuessMaker.z self) 0).
Proof.
  intros Hlen Hlast.
  unfold InitialGuessMaker.exponential_guess. rewrite Hlast. simpl.
  eexists. split; [reflexivity |].
  set (row := fun se : R * R => map _ (InitialGuessMaker.z self)).
  split.
  - split.
    + rewrite length_map, length_combine. lia.
    + apply Forall_forall. intros r Hr.
      apply in_map_iff in Hr. destruct Hr as [se [<- _]].
      subst row. apply length_map.
  - intros i k Hi Hk. unfold entry.
    rewrite (nth_map_in row _ _ (0, 0)) by (rewrite length_combine; lia).
    rewrite combine_nth by assumption.
    subst row. cbv beta. simpl fst. simpl snd.
    now rewrite (nth_map_in _ _ _ 0).
Qed.

(** *** Special values *)










(** C2: a gain shape that is neither ['linear'] nor ['exponential'] makes
    [make_signal_guess] raise the run-time error with its message, and
    [make_guess], which calls it first, raises the same error; neither
    returns a guess. *)
Theorem unknown_gain_shape_raises (self : InitialGuessMaker.t) :
  InitialGuessMaker.signal_gain_shape (InitialGuessMaker.params self) <> "linear"%string ->
  InitialGuessMaker.signal_gain_shape (InitialGuessMaker.params self)
    <> "exponential"%string ->
  InitialGuessMaker.make_signal_guess self
    = Raise (RuntimeError "Unrecognized signal gain shape parameter.") /\
  InitialGuessMaker.make_guess self
    = Raise (RuntimeError "Unrecognized signal gain shape parameter.").
Proof.
  intros Hlin Hexp.
  apply String.eqb_neq in Hlin, Hexp.
  assert (Hsig : InitialGuessMaker.make_signal_guess self
                 = Raise (RuntimeError "Unrecognized signal gain shape parameter.")).
  { unfold InitialGuessMaker.make_signal_guess. now rewrite Hlin, Hexp. }
  split; [exact Hsig |].
  unfold InitialGuessMaker.make_guess. now rewrite Hsig.
Qed.

Lemma unknown_gain_shape_raises_witness :
  InitialGuessMaker.make_signal_guess
    (InitialGuessMaker.init sample_powers sample_slices sample_z (sample_params "quadratic"))
    = Raise (RuntimeError "Unrecognized signal gain shape parameter.") /\
  InitialGuessMaker.make_guess
    (InitialGuessMaker.init sample_powers sample_slices sample_z (sample_params "quadratic"))
    = Raise (RuntimeError "Unrecognized signal gain shape parameter.").
Proof.
  apply (unknown_gain_shape_raises
           (InitialGuessMaker.init sample_powers sample_slices sample_z
              (sample_params "quadratic")));
    simpl; discriminate.
Defined.

(** C5: every counter-propagating pump row is the linear ramp that starts,
    at the first grid point, at [pump_absorption_factor] times the pump's
    input power and ends, at the last grid point, at the input power; it is
    the row the co-propagating pump guess gives the same input power, read
    backwards. *)
Theorem make_counter_pump_guess_mirror (self self' : InitialGuessMaker.t) :
  let p := InitialGuessMaker.counter_pump_powers self in
  let f := InitialGuessMaker.pump_absorption_factor (InitialGuessMaker.params self) in
  let m := length (InitialGuessMaker.z self) in
  let guess := InitialGuessMaker.make_counter_pump_guess self in
  (2 <= m)%nat ->
  has_shape (length p) m guess /\
  (forall i k, (i < length p)%nat -> (k < m)%nat ->
     entry guess i k
       = f * nth i p 0 + INR k * (nth i p 0 - f * nth i p 0) / INR (m - 1)) /\
  (forall i, (i < length p)%nat ->
     entry guess i 0 = f * nth i p 0 /\ entry guess i (m - 1) = nth i p 0) /\
  (InitialGuessMaker.co_pump_powers self' = p ->
   InitialGuessMaker.z self' = InitialGuessMaker.z self ->
   InitialGuessMaker.params self' = InitialGuessMaker.params self ->
   guess = map (@rev R) (InitialGuessMaker.make_co_pump_guess self')).
Proof.
  intros p f m guess Hm.
  assert (Hlen : length (scale f p) = length p) by apply length_map.
  assert (Hnth : forall i, (i < length p)%nat -> nth i (scale f p) 0 = f * nth i p 0).
  { intros i Hi. unfold scale. now rewrite (nth_map_in _ _ _ 0). }
  subst guess. unfold InitialGuessMaker.make_counter_pump_guess,
    InitialGuessMaker.linear_guess. fold p f m.
  split; [| split; [| split]].
  - now apply has_shape_linspace_2d.
  - intros i k Hi Hk.
    rewrite entry_linspace_2d by (assumption || lia).
    now rewrite Hnth.
  - intros i Hi. split.
    + rewrite entry_linspace_2d_first by (assumption || lia). now apply Hnth.
    + rewrite entry_linspace_2d_last by (assumption || lia). reflexivity.
  - intros Hp Hz Hparams.
    unfold InitialGuessMaker.make_co_pump_guess, InitialGuessMaker.linear_guess.
    rewrite Hp, Hz, Hparams. fold f m.
    symmetry. apply linspace_2d_rev; [now symmetry | assumption].
Qed.

Lemma make_counter_pump_guess_mirror_witness :
  let self := InitialGuessMaker.init sample_powers sample_slices sample_z
                (sample_params "linear") in
  entry (InitialGuessMaker.make_counter_pump_guess self) 0 0 = 0.01 * 3 /\
  entry (InitialGuessMaker.make_counter_pump_guess self) 0 2 = 3.
Proof.
  intros self.
  pose proof (make_counter_pump_guess_mirror self self) as H.
  cbv zeta in H.
  destruct (H ltac:(simpl; lia)) as [_ [_ [Hends _]]].
  apply (Hends 0%nat). simpl. lia.
Defined.

(** C3: for a non-empty input-power vector, slices that partition its
    indices, a grid of two or more points and a known gain shape,
    [make_guess] returns an array with one row per channel and one column per
    grid point, and reading any category's slice of it back gives that
    category's block of rows.  The rows are in the order of the input-power
    vector: row [i] holds input power [i] at the column where its category
    pins it (for a signal row, under the linear shape). *)
Theorem make_guess_shape
        (input_powers : vec) (sl : InitialGuessMaker.slice_map) (z : vec)
        (params : InitialGuessMaker.guess_params) :
  let self := InitialGuessMaker.init input_powers sl z params in
  (1 <= length input_powers)%nat ->
  slices_partition sl (length input_powers) = true ->
  (2 <= length z)%nat ->
  known_gain_shape (InitialGuessMaker.signal_gain_shape params) ->
  exists guess,
    InitialGuessMaker.make_guess self = Ok guess /\
    InitialGuessMaker.guess_shape self = (length input_powers, length z) /\
    has_shape (length input_powers) (length z) guess /\
    (forall k, category_guess self k = Ok (getslice (sl k) guess)) /\
    (forall i k,
       in_sliceb i (sl k) = true ->
       (k = InitialGuessMaker.signal_slice ->
        InitialGuessMaker.signal_gain_shape params = "linear"%string) ->
       entry guess i (pinned_column k (length z)) = nth i input_powers 0).
Proof.
  intros self Hn Hpart Hm Hshape.
  destruct (make_signal_guess_returns input_powers sl z params Hshape) as [b Hb];
    [lia |].
  fold self in Hb.
  exists (assemble (map (fun k => (sl k, category_rows self b k))
                        InitialGuessMaker.all_keys)
                   (zeros (length input_powers) (length z))).
  pose proof (has_shape_zeros (length input_powers) (length z)) as [Hz0 Hzrows].
  assert (Hblk : forall k, length (category_rows self b k)
                           = slice_len (sl k) (length input_powers)).
  { intros k. now apply category_rows_shape. }
  split; [| split; [| split; [| split]]].
  - now apply make_guess_assemble.
  - reflexivity.
  - split.
    + exact (length_assemble_partition sl (length input_powers)
               (category_rows self b) _ Hz0 Hblk).
    + apply assemble_rows; [| assumption].
      apply Forall_forall. intros sv Hsv.
      apply in_map_iff in Hsv. destruct Hsv as [k [<- _]].
      now apply category_rows_shape.
  - intros k.
    transitivity (Ok (category_rows self b k)).
    { exact (category_guess_rows input_powers sl z params b k Hb). }
    f_equal. symmetry.
    exact (getslice_assemble_partition sl (length input_powers) Hpart
             (category_rows self b) _ Hz0 Hblk k).
  - intros i k Hin Hlin.
    pose proof (partition_within sl _ Hpart k i Hin) as Hi.
    pose proof (partition_slice_len sl _ Hpart k) as Hlen.
    pose proof Hin as Hrange. apply in_sliceb_true in Hrange.
    unfold entry.
    rewrite (nth_assemble_partition sl _ Hpart (category_rows self b) _ Hz0 Hblk
               k i [] Hin).
    change (entry (category_rows self b k) (i - slice_start (sl k))
                  (pinned_column k (length z)) = nth i input_powers 0).
    rewrite (category_rows_pinned input_powers sl z params b k) by (trivial; lia).
    rewrite nth_getslice by lia.
    f_equal. lia.
Qed.

Lemma make_guess_shape_witness :
  let self := InitialGuessMaker.init sample_powers sample_slices sample_z
                (sample_params "linear") in
  exists guess,
    InitialGuessMaker.make_guess self = Ok guess /\
    InitialGuessMaker.guess_shape self = (5%nat, 3%nat) /\
    has_shape 5 3 guess /\
    (forall k, category_guess self k = Ok (getslice (sample_slices k) guess)) /\
    (forall i k,
       in_sliceb i (sample_slices k) = true ->
       (k = InitialGuessMaker.signal_slice -> "linear"%string = "linear"%string) ->
       entry guess i (pinned_column k 3) = nth i sample_powers 0).
Proof.
  apply (make_guess_shape sample_powers sample_slices sample_z
           (sample_params "linear")).
  - simpl. lia.
  - reflexivity.
  - simpl. lia.
  - left. reflexivity.
Defined.


(** C4: for strictly positive start and end vectors and a grid that starts
    at [0] and ends at [z_max > 0], the exponential guess is returned, its
    entry for channel [i] at grid point [z_k] is
    [start_i * exp (z_k * ln (end_i / start_i) / z_max)], its first column is
    the start vector and its last column the end vector. *)
Theorem exponential_guess_formula (self : InitialGuessMaker.t)
        (start end_ : vec) (z_max : R) :
  let z := InitialGuessMaker.z self in
  length start = length end_ ->
  Forall (fun p => 0 < p) start ->
  Forall (fun p => 0 < p) end_ ->
  nth 0 z 0 = 0 ->
  last_item z = Ok z_max ->
  0 < z_max ->
  exists guess,
    InitialGuessMaker.exponential_guess self start end_ = Ok guess /\
    has_shape (length start) (length z) guess /\
    forall i, (i < length start)%nat ->
      (forall k, (k < length z)%nat ->
         entry guess i k
           = nth i start 0 * exp (nth k z 0 * ln (nth i end_ 0 / nth i start 0) / z_max)) /\
      entry guess i 0 = nth i start 0 /\
      entry guess i (length z - 1) = nth i end_ 0.
Proof.
  intros z Hlen Hstart Hend Hz0 Hlast Hzmax.
  destruct (last_item_nth z z_max Hlast) as [Hnonempty Hzlast].
  destruct (exponential_guess_entries self start end_ z_max Hlen Hlast)
    as [guess [Hguess [Hshape Hentry]]].
  fold z in Hshape, Hentry.
  exists guess. split; [exact Hguess |]. split; [exact Hshape |].
  intros i Hi.
  assert (Hsi : 0 < nth i start 0).
  { rewrite Forall_forall in Hstart. apply Hstart, nth_In, Hi. }
  assert (Hei : 0 < nth i end_ 0).
  { rewrite Forall_forall in Hend. apply Hend, nth_In. lia. }
  repeat split.
  - intros k Hk. rewrite Hentry by assumption.
    do 2 f_equal. field. lra.
  - rewrite Hentry by (assumption || lia).
    rewrite Hz0, Rmult_0_r, exp_0. lra.
  - rewrite Hentry by (assumption || lia).
    rewrite Hzlast.
    replace (ln (nth i end_ 0 / nth i start 0) / z_max * z_max)
      with (ln (nth i end_ 0 / nth i start 0)) by (field; lra).
    rewrite exp_ln by (apply Rdiv_lt_0_compat; assumption).
    field. lra.
Qed.

(** With start [1] and end [e] over the grid [[0; 1]] the guess is [1] at
    [z = 0] and [e] at [z = 1]. *)
Lemma exponential_guess_formula_witness :
  let self := InitialGuessMaker.init sample_powers sample_slices [0; 1]
                (sample_params "exponential") in
  exists guess,
    InitialGuessMaker.exponential_guess self [1] [exp 1] = Ok guess /\
    entry guess 0 0 = 1 /\
    entry guess 0 1 = exp 1.
Proof.
  intros self.
  destruct (exponential_guess_formula self [1] [exp 1] 1) as [guess [Hg [_ Hrow]]].
  - reflexivity.
  - constructor; [lra | constructor].
  - constructor; [apply exp_pos | constructor].
  - reflexivity.
  - reflexivity.
  - lra.
  - exists guess. split; [exact Hg |].
    destruct (Hrow 0%nat ltac:(simpl; lia)) as [_ [Hfirst Hlast]].
    split; [exact Hfirst | exact Hlast].
Defined.

(** ** Lower bounds on the entries of the guess *)

Lemma fold_left_Rplus_nonneg (v : vec) (acc : R) :
  0 <= acc -> Forall (fun p => 0 <= p) v -> 0 <= fold_left Rplus v acc.
Proof.
  revert acc. induction v as [| x v IH]; intros acc Hacc Hv; simpl.
  - assumption.
  - inversion Hv; subst. apply IH; [lra | assumption].
Qed.

Lemma sum_nonneg (v : vec) : Forall (fun p => 0 <= p) v -> 0 <= Np.sum v.
Proof.
  apply fold_left_Rplus_nonneg. lra.
Qed.

Lemma Forall_map_ge (b : R) (f : R -> R) (l : vec) :
  (forall p, In p l -> b <= f p) -> Forall (fun p => b <= p) (map f l).
Proof.
  intros H. apply Forall_forall. intros y Hy.
  apply in_map_iff in Hy. destruct Hy as [p [<- Hp]]. now apply H.
Qed.

Section BoundedGuess.

Variable input_powers : vec.
Variable sl : InitialGuessMaker.slice_map.
Variable z : vec.
Variable params : InitialGuessMaker.guess_params.
Variable eps : R.

Let self := InitialGuessMaker.init input_powers sl z params.
Let scg := InitialGuessMaker.signal_conversion_guess params.
Let paf := InitialGuessMaker.pump_absorption_factor params.
Let ase := InitialGuessMaker.ase_output_power params.
Let bound := paf * Rmin eps ase.

Hypothesis Heps : 0 <= eps.
Hypothesis Hpowers : Forall (fun p => eps <= p) input_powers.
Hypothesis Hlinear : InitialGuessMaker.signal_gain_shape params = "linear"%string.
Hypothesis Hscg : 0 <= scg.
Hypothesis Hpaf : 0 <= paf <= 1.
Hypothesis Hase : 0 <= ase.
Hypothesis Hgrid : (2 <= length z)%nat.

Lemma slice_powers_ge (k : InitialGuessMaker.slice_key) (p : R) :
  In p (getslice (sl k) input_powers) -> eps <= p.
Proof.
  intros Hp.
  pose proof (Forall_getslice _ (sl k) _ Hpowers) as H.
  rewrite Forall_forall in H. now apply H.
Qed.

Lemma bound_le_eps : bound <= eps.
Proof.
  subst bound. pose proof (Rmin_l eps ase).
  destruct (Rle_dec 0 (Rmin eps ase)); nra.
Qed.

Lemma bound_le_ase : bound <= ase.
Proof.
  subst bound. pose proof (Rmin_r eps ase).
  assert (0 <= Rmin eps ase) by now apply Rmin_glb.
  nra.
Qed.

Lemma bound_le_absorbed (p : R) : eps <= p -> bound <= paf * p.
Proof.
  intros Hp. subst bound. pose proof (Rmin_l eps ase). nra.
Qed.

Lemma slice_powers_bound (k : InitialGuessMaker.slice_key) :
  Forall (fun p => bound <= p) (getslice (sl k) input_powers).
Proof.
  apply Forall_forall. intros p Hp.
  apply slice_powers_ge in Hp. pose proof bound_le_eps. lra.
Qed.

Lemma total_pump_nonneg :
  0 <= Np.sum (InitialGuessMaker.co_pump_powers self)
       + Np.sum (InitialGuessMaker.counter_pump_powers self).
Proof.
  assert (H : forall k, 0 <= Np.sum (getslice (sl k) input_powers)).
  { intros k. apply sum_nonneg, Forall_forall. intros p Hp.
    apply slice_powers_ge in Hp. lra. }
  simpl. pose proof (H InitialGuessMaker.co_pump_slice).
  pose proof (H InitialGuessMaker.counter_pump_slice). lra.
Qed.

Lemma signal_guess_linear :
  InitialGuessMaker.make_signal_guess self =
  Ok (linspace_2d (InitialGuessMaker.signal_powers self)
        (map (fun s => scg * (Np.sum (InitialGuessMaker.co_pump_powers self)
                              + Np.sum (InitialGuessMaker.counter_pump_powers self)) + s)
             (InitialGuessMaker.signal_powers self))
        (length z)).
Proof.
  unfold InitialGuessMaker.make_signal_guess. simpl InitialGuessMaker.params.
  now rewrite Hlinear.
Qed.

Lemma category_rows_ge (b : matrix) (k : InitialGuessMaker.slice_key) :
  InitialGuessMaker.make_signal_guess self = Ok b ->
  all_entries_ge bound (category_rows self b k).
Proof.
  intros Hb. rewrite signal_guess_linear in Hb. injection Hb as <-.
  pose proof total_pump_nonneg as Htotal.
  pose proof bound_le_eps as Hbe. pose proof bound_le_ase as Hba.
  destruct k; simpl category_rows;
    unfold InitialGuessMaker.make_co_pump_guess, InitialGuessMaker.make_counter_pump_guess,
      InitialGuessMaker.make_forward_ase_guess, InitialGuessMaker.make_backward_ase_guess,
      InitialGuessMaker.make_forward_raman_guess,
      InitialGuessMaker.make_backward_raman_guess,
      InitialGuessMaker.linear_guess, scale, full_like;
    apply linspace_2d_ge; try exact Hgrid;
    try apply slice_powers_bound;
    apply Forall_map_ge; intros p Hp; apply slice_powers_ge in Hp.
  - fold scg. simpl in Htotal.
    pose proof (Rmult_le_pos _ _ Hscg Htotal). lra.
  - now apply bound_le_absorbed.
  - now apply bound_le_absorbed.
  - fold ase. assumption.
  - fold ase. assumption.
  - lra.
Qed.

(** Under a slice partition every row of the guess comes from a block. *)
Lemma guess_entries_ge :
  slices_partition sl (length input_powers) = true ->
  exists guess,
    InitialGuessMaker.make_guess self = Ok guess /\ all_entries_ge bound guess.
Proof.
  intros Hpart.
  pose proof signal_guess_linear as Hb.
  set (b := linspace_2d _ _ _) in Hb.
  exists (assemble (map (fun k => (sl k, category_rows self b k))
                        InitialGuessMaker.all_keys)
                   (zeros (length input_powers) (length z))).
  split; [now apply make_guess_assemble |].
  pose proof (has_shape_zeros (length input_powers) (length z)) as [Hz0 _].
  assert (Hblk : forall k, length (category_rows self b k)
                           = slice_len (sl k) (length input_powers)).
  { intros k. now apply category_rows_shape. }
  apply Forall_forall. intros row Hrow.
  apply (In_nth _ _ []) in Hrow. destruct Hrow as [i [Hi <-]].
  rewrite (length_assemble_partition sl _ (category_rows self b) _ Hz0 Hblk) in Hi.
  destruct (partition_covers sl _ Hpart i Hi) as [k Hk].
  rewrite (nth_assemble_partition sl _ Hpart (category_rows self b) _ Hz0 Hblk k i [] Hk).
  pose proof (category_rows_ge b k Hb) as Hge.
  unfold all_entries_ge in Hge. rewrite Forall_forall in Hge.
  apply Hge, nth_In.
  rewrite Hblk, (partition_slice_len sl _ Hpart).
  apply in_sliceb_true in Hk. lia.
Qed.

End BoundedGuess.

(** C6, the claim as stated, fails: a forward ASE channel with zero input
    power, a legitimate non-negative input, gets the entry [0] at the first
    grid point of the default guess, so no strictly positive floor bounds
    the entries. *)
Lemma guess_floor_counterexample :
  let self := InitialGuessMaker.init [0] ase_only_slices [0; 1]
                InitialGuessMaker.DEFAULT_GUESS_PARAMS in
  Forall (fun p => 0 <= p) [0] /\
  slices_partition ase_only_slices 1 = true /\
  exists guess,
    InitialGuessMaker.make_guess self = Ok guess /\
    entry guess 0 0 = 0 /\
    forall floor, 0 < floor -> ~ all_entries_ge floor guess.
Proof.
  intros self. split; [| split].
  - constructor; [lra | constructor].
  - reflexivity.
  - exists [[0 + INR 0 * (1e-3 - 0) / INR (2 - 1); 0 + INR 1 * (1e-3 - 0) / INR (2 - 1)]].
    split; [reflexivity |]. split.
    + unfold entry. simpl. lra.
    + intros floor Hfloor Hall.
      inversion Hall as [| row rest Hrow _]; subst.
      inversion Hrow as [| x xs Hx _]; subst.
      simpl in Hx. lra.
Qed.

(** C6, amended: [make_guess] applies no floor of its own, it passes on the
    one its input has.  Under the default parameters, when every input power
    is at least [eps >= 0], the slices partition the channels and the grid has
    two or more points, every entry of the guess is at least
    [pump_absorption_factor * min eps ase_output_power], that is
    [0.01 * min eps 0.001]: non-negative for non-negative input powers, and
    strictly positive as soon as the input powers have a strictly positive
    floor. *)
Theorem default_guess_lower_bound
        (input_powers : vec) (sl : InitialGuessMaker.slice_map) (z : vec) (eps : R) :
  let self := InitialGuessMaker.init input_powers sl z
                InitialGuessMaker.DEFAULT_GUESS_PARAMS in
  0 <= eps ->
  Forall (fun p => eps <= p) input_powers ->
  slices_partition sl (length input_powers) = true ->
  (2 <= length z)%nat ->
  exists guess,
    InitialGuessMaker.make_guess self = Ok guess /\
    all_entries_ge (0.01 * Rmin eps 0.001) guess /\
    0 <= 0.01 * Rmin eps 0.001 /\
    (0 < eps -> 0 < 0.01 * Rmin eps 0.001).
Proof.
  intros self Heps Hpowers Hpart Hgrid.
  destruct (guess_entries_ge input_powers sl z InitialGuessMaker.DEFAULT_GUESS_PARAMS eps)
    as [guess [Hguess Hge]]; simpl; try assumption; try lra; try reflexivity.
  exists guess. split; [exact Hguess |]. split.
  - simpl in Hge. replace (0.01 * Rmin eps 0.001) with (0.01 * Rmin eps 1e-3)
      by (f_equal; f_equal; lra). exact Hge.
  - unfold Rmin. destruct (Rle_dec eps 0.001); split; intros; lra.
Qed.

Lemma default_guess_lower_bound_witness :
  let self := InitialGuessMaker.init [1; 2; 3; 0.001; 0.002] sample_slices sample_z
                InitialGuessMaker.DEFAULT_GUESS_PARAMS in
  exists guess,
    InitialGuessMaker.make_guess self = Ok guess /\
    all_entries_ge (0.01 * Rmin 0.001 0.001) guess /\
    0 <= 0.01 * Rmin 0.001 0.001 /\
    (0 < 0.001 -> 0 < 0.01 * Rmin 0.001 0.001).
Proof.
  apply (default_guess_lower_bound [1; 2; 3; 0.001; 0.002] sample_slices sample_z 0.001).
  - lra.
  - repeat (constructor; [lra |]). constructor.
  - reflexivity.
  - simpl. lia.
Defined.

(** * Further properties of the initial guess *)

(** ** The other linear categories *)

(** The co-propagating pump rows run from the input power at the first grid
    point down to [pump_absorption_factor] times it at the last. *)
Theorem make_co_pump_guess_ramp (self : InitialGuessMaker.t) :
  let p := InitialGuessMaker.co_pump_powers self in
  let f := InitialGuessMaker.pump_absorption_factor (InitialGuessMaker.params self) in
  let m := length (InitialGuessMaker.z self) in
  let guess := InitialGuessMaker.make_co_pump_guess self in
  (2 <= m)%nat ->
  has_shape (length p) m guess /\
  forall i, (i < length p)%nat ->
    entry guess i 0 = nth i p 0 /\
    entry guess i (m - 1) = f * nth i p 0 /\
    forall k, (k < m)%nat ->
      entry guess i k = nth i p 0 + INR k * (f * nth i p 0 - nth i p 0) / INR (m - 1).
Proof.
  intros p f m guess Hm.
  assert (Hlen : length p = length (scale f p)) by (symmetry; apply length_map).
  assert (Hnth : forall i, (i < length p)%nat -> nth i (scale f p) 0 = f * nth i p 0).
  { intros i Hi. unfold scale. now rewrite (nth_map_in _ _ _ 0). }
  subst guess. unfold InitialGuessMaker.make_co_pump_guess,
    InitialGuessMaker.linear_guess. fold p f m.
  split.
  - apply has_shape_linspace_2d; [reflexivity | now symmetry].
  - intros i Hi. repeat split.
    + now apply entry_linspace_2d_first.
    + rewrite entry_linspace_2d_last by assumption. now apply Hnth.
    + intros k Hk. rewrite entry_linspace_2d by assumption. now rewrite Hnth.
Qed.

Lemma make_co_pump_guess_ramp_witness :
  let self := InitialGuessMaker.init sample_powers sample_slices sample_z
                (sample_params "linear") in
  entry (InitialGuessMaker.make_co_pump_guess self) 0 0 = 2 /\
  entry (InitialGuessMaker.make_co_pump_guess self) 0 2 = 0.01 * 2.
Proof.
  intros self.
  pose proof (make_co_pump_guess_ramp self) as H. cbv zeta in H.
  destruct (H ltac:(simpl; lia)) as [_ Hrows].
  destruct (Hrows 0%nat ltac:(simpl; lia)) as [Hfirst [Hlast _]].
  split; [exact Hfirst | exact Hlast].
Defined.

(** The forward ASE rows run from the input power to [ase_output_power], the
    backward ASE rows from [ase_output_power] to the input power; for equal
    input powers the one block is the other with every row reversed. *)
Theorem ase_guesses_mirror (self self' : InitialGuessMaker.t) :
  let p := InitialGuessMaker.forward_ase_powers self in
  let q := InitialGuessMaker.backward_ase_powers self in
  let a := InitialGuessMaker.ase_output_power (InitialGuessMaker.params self) in
  let m := length (InitialGuessMaker.z self) in
  (2 <= m)%nat ->
  (forall i, (i < length p)%nat ->
     entry (InitialGuessMaker.make_forward_ase_guess self) i 0 = nth i p 0 /\
     entry (InitialGuessMaker.make_forward_ase_guess self) i (m - 1) = a) /\
  (forall i, (i < length q)%nat ->
     entry (InitialGuessMaker.make_backward_ase_guess self) i 0 = a /\
     entry (InitialGuessMaker.make_backward_ase_guess self) i (m - 1) = nth i q 0) /\
  (InitialGuessMaker.backward_ase_powers self' = p ->
   InitialGuessMaker.z self' = InitialGuessMaker.z self ->
   InitialGuessMaker.params self' = InitialGuessMaker.params self ->
   InitialGuessMaker.make_backward_ase_guess self'
   = map (@rev R) (InitialGuessMaker.make_forward_ase_guess self)).
Proof.
  intros p q a m Hm.
  assert (Hfull : forall v i, (i < length v)%nat -> nth i (full_like v a) 0 = a).
  { intros v i Hi. unfold full_like. now rewrite (nth_map_in _ _ _ 0). }
  assert (Hlen : forall v, length (full_like v a) = length v)
    by (intros v; apply length_map).
  unfold InitialGuessMaker.make_forward_ase_guess,
    InitialGuessMaker.make_backward_ase_guess, InitialGuessMaker.linear_guess.
  fold p q a m.
  split; [| split].
  - intros i Hi. split.
    + now apply entry_linspace_2d_first.
    + rewrite entry_linspace_2d_last by (trivial; now rewrite Hlen). now apply Hfull.
  - intros i Hi. split.
    + rewrite entry_linspace_2d_first by (trivial; now rewrite Hlen). now apply Hfull.
    + apply entry_linspace_2d_last; trivial. now rewrite Hlen.
  - intros Hp Hz Hparams. rewrite Hp, Hz, Hparams. fold a m.
    symmetry. apply linspace_2d_rev; [now rewrite Hlen | assumption].
Qed.

Lemma ase_guesses_mirror_witness :
  let self := InitialGuessMaker.init sample_powers sample_slices sample_z
                (sample_params "linear") in
  entry (InitialGuessMaker.make_forward_ase_guess self) 0 0 = 0 /\
  entry (InitialGuessMaker.make_forward_ase_guess self) 0 2 = 1e-3.
Proof.
  intros self.
  pose proof (ase_guesses_mirror self self) as H. cbv zeta in H.
  destruct (H ltac:(simpl; lia)) as [Hfwd _].
  apply (Hfwd 0%nat). simpl. lia.
Defined.

(** The forward Raman rows run from the input power to twice the input
    power; the backward Raman rows are flat at the input power. *)
Theorem raman_guesses (self : InitialGuessMaker.t) :
  let p := InitialGuessMaker.forward_raman_powers self in
  let q := InitialGuessMaker.backward_raman_powers self in
  let m := length (InitialGuessMaker.z self) in
  (2 <= m)%nat ->
  (forall i, (i < length p)%nat ->
     entry (InitialGuessMaker.make_forward_raman_guess self) i 0 = nth i p 0 /\
     entry (InitialGuessMaker.make_forward_raman_guess self) i (m - 1) = 2 * nth i p 0) /\
  (forall i k, (i < length q)%nat -> (k < m)%nat ->
     entry (InitialGuessMaker.make_backward_raman_guess self) i k = nth i q 0).
Proof.
  intros p q m Hm.
  unfold InitialGuessMaker.make_forward_raman_guess,
    InitialGuessMaker.make_backward_raman_guess, InitialGuessMaker.linear_guess.
  fold p q m.
  split.
  - intros i Hi. split.
    + apply entry_linspace_2d_first; trivial. now rewrite length_map.
    + rewrite entry_linspace_2d_last by (trivial; now rewrite length_map).
      rewrite (nth_map_in _ _ _ 0) by assumption. lra.
  - intros i k Hi Hk.
    rewrite entry_linspace_2d by trivial.
    pose proof (INR_pred_pos m Hm). field. lra.
Qed.

Lemma raman_guesses_witness :
  let self := InitialGuessMaker.init [4; 6] (fun k =>
                  match k with
                  | InitialGuessMaker.forward_raman_slice => Slice 0 1
                  | InitialGuessMaker.backward_raman_slice => Slice 1 2
                  | _ => Slice 0 0
                  end) sample_z (sample_params "linear") in
  (entry (InitialGuessMaker.make_forward_raman_guess self) 0 0 = 4 /\
   entry (InitialGuessMaker.make_forward_raman_guess self) 0 2 = 2 * 4) /\
  entry (InitialGuessMaker.make_backward_raman_guess self) 0 1 = 6.
Proof.
  intros self.
  pose proof (raman_guesses self) as H. cbv zeta in H.
  destruct (H ltac:(simpl; lia)) as [Hfwd Hbwd].
  split.
  - apply (Hfwd 0%nat). simpl. lia.
  - apply (Hbwd 0%nat 1%nat); simpl; lia.
Defined.

(** ** Monotone rows *)

Lemma ramp_step (s e d j k : R) :
  0 < d -> j <= k -> s <= e -> s + j * (e - s) / d <= s + k * (e - s) / d.
Proof.
  intros Hd Hjk Hse.
  assert (H : 0 <= (k - j) * (e - s) / d).
  { apply Rmult_le_pos; [nra |]. left. now apply Rinv_0_lt_compat. }
  replace (s + k * (e - s) / d) with (s + j * (e - s) / d + (k - j) * (e - s) / d)
    by (field; lra).
  lra.
Qed.

Lemma ramp_step_down (s e d j k : R) :
  0 < d -> j <= k -> e <= s -> s + k * (e - s) / d <= s + j * (e - s) / d.
Proof.
  intros Hd Hjk Hes.
  assert (H : 0 <= (k - j) * (s - e) / d).
  { apply Rmult_le_pos; [nra |]. left. now apply Rinv_0_lt_compat. }
  replace (s + j * (e - s) / d) with (s + k * (e - s) / d + (k - j) * (s - e) / d)
    by (field; lra).
  lra.
Qed.

Lemma linspace_2d_row_nth (s e : vec) (m i k : nat) :
  (i < length s)%nat -> length s = length e -> (k < m)%nat ->
  nth k (nth i (linspace_2d s e m) []) 0
  = nth i s 0 + INR k * (nth i e 0 - nth i s 0) / INR (m - 1).
Proof.
  intros Hi Hlen Hk. now apply entry_linspace_2d.
Qed.

Lemma linspace_2d_nondecreasing (s e : vec) (m : nat) :
  length s = length e -> (2 <= m)%nat ->
  (forall i, (i < length s)%nat -> nth i s 0 <= nth i e 0) ->
  Forall nondecreasing (linspace_2d s e m).
Proof.
  intros Hlen Hm Hle. apply Forall_forall. intros row Hrow.
  apply (In_nth _ _ []) in Hrow. destruct Hrow as [i [Hi <-]].
  rewrite length_linspace_2d in Hi by assumption.
  intros j k Hjk.
  pose proof (linspace_2d_rows s e m) as Hrows. rewrite Forall_forall in Hrows.
  rewrite (Hrows (nth i (linspace_2d s e m) [])) in Hjk
    by (apply nth_In; now rewrite length_linspace_2d).
  rewrite !linspace_2d_row_nth by (assumption || lia).
  apply ramp_step.
  - now apply INR_pred_pos.
  - apply le_INR. lia.
  - now apply Hle.
Qed.

Lemma linspace_2d_nonincreasing (s e : vec) (m : nat) :
  length s = length e -> (2 <= m)%nat ->
  (forall i, (i < length s)%nat -> nth i e 0 <= nth i s 0) ->
  Forall nonincreasing (linspace_2d s e m).
Proof.
  intros Hlen Hm Hle. apply Forall_forall. intros row Hrow.
  apply (In_nth _ _ []) in Hrow. destruct Hrow as [i [Hi <-]].
  rewrite length_linspace_2d in Hi by assumption.
  intros j k Hjk.
  pose proof (linspace_2d_rows s e m) as Hrows. rewrite Forall_forall in Hrows.
  rewrite (Hrows (nth i (linspace_2d s e m) [])) in Hjk
    by (apply nth_In; now rewrite length_linspace_2d).
  rewrite !linspace_2d_row_nth by (assumption || lia).
  apply ramp_step_down.
  - now apply INR_pred_pos.
  - apply le_INR. lia.
  - now apply Hle.
Qed.

(** With an absorption factor between 0 and 1 and non-negative pump powers,
    every co-propagating pump row never rises along the grid and every
    counter-propagating pump row never falls. *)
Theorem pump_guesses_monotone (self : InitialGuessMaker.t) :
  let f := InitialGuessMaker.pump_absorption_factor (InitialGuessMaker.params self) in
  (2 <= length (InitialGuessMaker.z self))%nat ->
  0 <= f <= 1 ->
  Forall (fun p => 0 <= p) (InitialGuessMaker.co_pump_powers self) ->
  Forall (fun p => 0 <= p) (InitialGuessMaker.counter_pump_powers self) ->
  Forall nonincreasing (InitialGuessMaker.make_co_pump_guess self) /\
  Forall nondecreasing (InitialGuessMaker.make_counter_pump_guess self).
Proof.
  intros f Hm Hf Hco Hcounter.
  unfold InitialGuessMaker.make_co_pump_guess, InitialGuessMaker.make_counter_pump_guess,
    InitialGuessMaker.linear_guess. fold f.
  rewrite Forall_forall in Hco, Hcounter.
  split.
  - apply linspace_2d_nonincreasing; trivial.
    + unfold scale. now rewrite length_map.
    + intros i Hi. unfold scale. rewrite (nth_map_in _ _ _ 0) by assumption.
      pose proof (Hco _ (nth_In _ 0 Hi)). nra.
  - apply linspace_2d_nondecreasing; trivial.
    + unfold scale. now rewrite length_map.
    + unfold scale. rewrite length_map. intros i Hi.
      rewrite (nth_map_in _ _ _ 0) by assumption.
      pose proof (Hcounter _ (nth_In _ 0 Hi)). nra.
Qed.

Lemma pump_guesses_monotone_witness :
  let self := InitialGuessMaker.init sample_powers sample_slices sample_z
                (sample_params "linear") in
  Forall nonincreasing (InitialGuessMaker.make_co_pump_guess self) /\
  Forall nondecreasing (InitialGuessMaker.make_counter_pump_guess self).
Proof.
  intros self. apply (pump_guesses_monotone self).
  - simpl. lia.
  - simpl. lra.
  - simpl. constructor; [lra | constructor].
  - simpl. constructor; [lra | constructor].
Defined.

(** Under the linear shape, with a non-negative conversion guess and
    non-negative pump powers, every signal row never falls along the grid. *)
Theorem signal_guess_nondecreasing (self : InitialGuessMaker.t) :
  (2 <= length (InitialGuessMaker.z self))%nat ->
  InitialGuessMaker.signal_gain_shape (InitialGuessMaker.params self) = "linear"%string ->
  0 <= InitialGuessMaker.signal_conversion_guess (InitialGuessMaker.params self) ->
  Forall (fun p => 0 <= p) (InitialGuessMaker.co_pump_powers self) ->
  Forall (fun p => 0 <= p) (InitialGuessMaker.counter_pump_powers self) ->
  exists guess,
    InitialGuessMaker.make_signal_guess self = Ok guess /\
    Forall nondecreasing guess.
Proof.
  intros Hm Hshape Hscg Hco Hcounter.
  unfold InitialGuessMaker.make_signal_guess. rewrite Hshape. simpl.
  eexists. split; [reflexivity |].
  unfold InitialGuessMaker.linear_guess.
  apply linspace_2d_nondecreasing; trivial.
  - now rewrite length_map.
  - intros i Hi. rewrite (nth_map_in _ _ _ 0) by assumption.
    pose proof (sum_nonneg _ Hco). pose proof (sum_nonneg _ Hcounter).
    assert (0 <= Np.sum (InitialGuessMaker.co_pump_powers self)
                 + Np.sum (InitialGuessMaker.counter_pump_powers self)) by lra.
    pose proof (Rmult_le_pos _ _ Hscg H1). lra.
Qed.

Lemma signal_guess_nondecreasing_witness :
  let self := InitialGuessMaker.init sample_powers sample_slices sample_z
                (sample_params "linear") in
  exists guess,
    InitialGuessMaker.make_signal_guess self = Ok guess /\
    Forall nondecreasing guess.
Proof.
  intros self. apply (signal_guess_nondecreasing self).
  - simpl. lia.
  - reflexivity.
  - simpl. lra.
  - simpl. constructor; [lra | constructor].
  - simpl. constructor; [lra | constructor].
Defined.

(** ** The exponential shape and the edge cases of the signal guess *)

(** For strictly positive start and end powers on a grid whose last point is
    not zero, every entry of the exponential guess is strictly positive.
    (The conditions on the end powers and on the last grid point keep the
    logarithm and the division of the source away from [nan]; the product
    of a positive start power and an exponential is positive.) *)
Theorem exponential_guess_positive (self : InitialGuessMaker.t)
        (start end_ : vec) (z_last : R) :
  length start = length end_ ->
  Forall (fun p => 0 < p) start ->
  Forall (fun p => 0 < p) end_ ->
  last_item (InitialGuessMaker.z self) = Ok z_last ->
  z_last <> 0 ->
  exists guess,
    InitialGuessMaker.exponential_guess self start end_ = Ok guess /\
    forall i k, (i < length start)%nat -> (k < length (InitialGuessMaker.z self))%nat ->
      0 < entry guess i k.
Proof.
  intros Hlen Hstart _ Hlast _.
  destruct (exponential_guess_entries self start end_ z_last Hlen Hlast)
    as [guess [Hguess [_ Hentry]]].
  exists guess. split; [exact Hguess |].
  intros i k Hi Hk. rewrite Hentry by assumption.
  rewrite Forall_forall in Hstart.
  apply Rmult_lt_0_compat; [apply Hstart, nth_In, Hi | apply exp_pos].
Qed.

Lemma exponential_guess_positive_witness :
  let self := InitialGuessMaker.init sample_powers sample_slices sample_z
                (sample_params "exponential") in
  exists guess,
    InitialGuessMaker.exponential_guess self [1; 2] [3; 4] = Ok guess /\
    forall i k, (i < 2)%nat -> (k < 3)%nat -> 0 < entry guess i k.
Proof.
  intros self.
  apply (exponential_guess_positive self [1; 2] [3; 4] 10).
  - reflexivity.
  - repeat (constructor; [lra |]). constructor.
  - repeat (constructor; [lra |]). constructor.
  - reflexivity.
  - lra.
Defined.

Lemma getslice_empty {A : Type} (s : slice) (a : list A) :
  slice_len s (length a) = 0%nat -> getslice s a = [].
Proof.
  intros H. apply length_zero_iff_nil. now rewrite length_getslice.
Qed.

(** Without pump channels the signal guess is flat: every entry of a signal
    row is the signal's input power, under the linear shape on a grid of two
    or more points, and under the exponential shape for strictly positive
    input powers on a grid whose last point is not zero. *)
Theorem signal_guess_without_pumps
        (input_powers : vec) (sl : InitialGuessMaker.slice_map) (z : vec)
        (params : InitialGuessMaker.guess_params) :
  let self := InitialGuessMaker.init input_powers sl z params in
  let start := getslice (sl InitialGuessMaker.signal_slice) input_powers in
  slice_len (sl InitialGuessMaker.co_pump_slice) (length input_powers) = 0%nat ->
  slice_len (sl InitialGuessMaker.counter_pump_slice) (length input_powers) = 0%nat ->
  (InitialGuessMaker.signal_gain_shape params = "linear"%string ->
   (2 <= length z)%nat ->
   exists guess,
     InitialGuessMaker.make_signal_guess self = Ok guess /\
     forall i k, (i < length start)%nat -> (k < length z)%nat ->
       entry guess i k = nth i start 0) /\
  (InitialGuessMaker.signal_gain_shape params = "exponential"%string ->
   forall z_last, last_item z = Ok z_last -> z_last <> 0 ->
   Forall (fun p => 0 < p) start ->
   exists guess,
     InitialGuessMaker.make_signal_guess self = Ok guess /\
     forall i k, (i < length start)%nat -> (k < length z)%nat ->
       entry guess i k = nth i start 0).
Proof.
  intros self start Hco Hcounter.
  assert (Hend : map (fun s => InitialGuessMaker.signal_conversion_guess params
                                * (Np.sum (InitialGuessMaker.co_pump_powers self)
                                   + Np.sum (InitialGuessMaker.counter_pump_powers self))
                                + s) start = start).
  { simpl. rewrite (getslice_empty _ _ Hco), (getslice_empty _ _ Hcounter).
    unfold Np.sum. simpl.
    rewrite <- (map_id start) at 2. apply map_ext. intros p. lra. }
  split.
  - intros Hshape Hm.
    unfold InitialGuessMaker.make_signal_guess.
    simpl InitialGuessMaker.params. rewrite Hshape. simpl InitialGuessMaker.signal_powers.
    fold start. simpl String.eqb. cbv iota. fold start in Hend. rewrite Hend.
    eexists. split; [reflexivity |].
    intros i k Hi Hk. unfold InitialGuessMaker.linear_guess. simpl InitialGuessMaker.z.
    rewrite entry_linspace_2d by trivial.
    pose proof (INR_pred_pos _ Hm). field. lra.
  - intros Hshape z_last Hlast Hz Hpos.
    unfold InitialGuessMaker.make_signal_guess.
    simpl InitialGuessMaker.params. rewrite Hshape. simpl InitialGuessMaker.signal_powers.
    fold start. simpl String.eqb. cbv iota. fold start in Hend. rewrite Hend.
    destruct (exponential_guess_entries self start start z_last eq_refl Hlast)
      as [guess [Hguess [_ Hentry]]].
    exists guess. split; [exact Hguess |].
    intros i k Hi Hk. rewrite Hentry by assumption.
    rewrite Forall_forall in Hpos.
    pose proof (Hpos _ (nth_In _ 0 Hi)) as Hsi.
    replace (nth i start 0 / nth i start 0) with 1 by (field; lra).
    rewrite ln_1. unfold Rdiv. rewrite !Rmult_0_l, exp_0. lra.
Qed.

Lemma signal_guess_without_pumps_witness :
  let self := InitialGuessMaker.init [7] (fun k =>
                  match k with
                  | InitialGuessMaker.signal_slice => Slice 0 1
                  | _ => Slice 1 1
                  end) sample_z (sample_params "linear") in
  exists guess,
    InitialGuessMaker.make_signal_guess self = Ok guess /\
    forall i k, (i < 1)%nat -> (k < 3)%nat -> entry guess i k = nth i [7] 0.
Proof.
  intros self.
  pose proof (signal_guess_without_pumps [7] (fun k =>
                  match k with
                  | InitialGuessMaker.signal_slice => Slice 0 1
                  | _ => Slice 1 1
                  end) sample_z (sample_params "linear")) as H.
  cbv zeta in H.
  destruct (H eq_refl eq_refl) as [Hlin _].
  apply Hlin; [reflexivity | simpl; lia].
Defined.

(** ** [make_guess] on an arbitrary slice map *)

Lemma make_signal_guess_returns_linear
      (input_powers : vec) (sl : InitialGuessMaker.slice_map) (z : vec)
      (params : InitialGuessMaker.guess_params) :
  InitialGuessMaker.signal_gain_shape params = "linear"%string ->
  exists b,
    InitialGuessMaker.make_signal_guess
      (InitialGuessMaker.init input_powers sl z params) = Ok b.
Proof.
  intros Hshape. unfold InitialGuessMaker.make_signal_guess. simpl.
  rewrite Hshape. simpl. eexists. reflexivity.
Qed.

Lemma all_keys_split (k : InitialGuessMaker.slice_key) :
  exists before after,
    InitialGuessMaker.all_keys = before ++ k :: after /\
    forall k', In k' after -> (key_order k < key_order k')%nat.
Proof.
  destruct k.
  - exists [], (skipn 1 InitialGuessMaker.all_keys). split; [reflexivity |].
    simpl. intros k' H. repeat destruct H as [<- | H]; simpl; try lia; try contradiction.
  - exists (firstn 1 InitialGuessMaker.all_keys), (skipn 2 InitialGuessMaker.all_keys).
    split; [reflexivity |].
    simpl. intros k' H. repeat destruct H as [<- | H]; simpl; try lia; try contradiction.
  - exists (firstn 2 InitialGuessMaker.all_keys), (skipn 3 InitialGuessMaker.all_keys).
    split; [reflexivity |].
    simpl. intros k' H. repeat destruct H as [<- | H]; simpl; try lia; try contradiction.
  - exists (firstn 3 InitialGuessMaker.all_keys), (skipn 4 InitialGuessMaker.all_keys).
    split; [reflexivity |].
    simpl. intros k' H. repeat destruct H as [<- | H]; simpl; try lia; try contradiction.
  - exists (firstn 4 InitialGuessMaker.all_keys), (skipn 5 InitialGuessMaker.all_keys).
    split; [reflexivity |].
    simpl. intros k' H. repeat destruct H as [<- | H]; simpl; try lia; try contradiction.
  - exists (firstn 5 InitialGuessMaker.all_keys), (skipn 6 InitialGuessMaker.all_keys).
    split; [reflexivity |].
    simpl. intros k' H. repeat destruct H as [<- | H]; simpl; try lia; try contradiction.
  - exists (firstn 6 InitialGuessMaker.all_keys), []. split; [reflexivity |].
    simpl. intros k' H. contradiction.
Qed.

Section AnySlices.

Variable input_powers : vec.
Variable sl : InitialGuessMaker.slice_map.
Variable z : vec.
Variable params : InitialGuessMaker.guess_params.
Variable b : matrix.

Let self := InitialGuessMaker.init input_powers sl z params.
Let n := length input_powers.
Let m := length z.
Let blocks := map (fun k => (sl k, category_rows self b k)) InitialGuessMaker.all_keys.

Hypothesis Hb : InitialGuessMaker.make_signal_guess self = Ok b.

Lemma guess_blocks_fit : Forall (fits (length (zeros n m))) blocks.
Proof.
  destruct (has_shape_zeros n m) as [-> _].
  apply Forall_forall. intros sv Hsv.
  apply in_map_iff in Hsv. destruct Hsv as [k [<- _]].
  unfold fits. simpl. now apply category_rows_shape.
Qed.

Lemma guess_has_shape : has_shape n m (assemble blocks (zeros n m)).
Proof.
  destruct (has_shape_zeros n m) as [Hlen Hrows]. split.
  - rewrite length_assemble; [exact Hlen | apply guess_blocks_fit].
  - apply assemble_rows; [| exact Hrows].
    apply Forall_forall. intros sv Hsv.
    apply in_map_iff in Hsv. destruct Hsv as [k [<- _]].
    now apply category_rows_shape.
Qed.

Lemma guess_row_untouched (i : nat) :
  (i < n)%nat ->
  (forall k, in_sliceb i (sl k) = false) ->
  nth i (assemble blocks (zeros n m)) [] = repeat 0 m.
Proof.
  intros Hi Hout.
  rewrite nth_assemble_out.
  - unfold zeros. rewrite (nth_indep _ [] (repeat 0 m)) by now rewrite repeat_length.
    apply nth_repeat.
  - apply guess_blocks_fit.
  - destruct (has_shape_zeros n m) as [-> _].
    apply Forall_forall. intros sv Hsv.
    apply in_map_iff in Hsv. destruct Hsv as [k [<- _]].
    unfold misses. simpl. intros Hin.
    apply (in_sliceb_clamped i n (sl k) Hi) in Hin.
    rewrite Hout in Hin. discriminate.
Qed.

Lemma guess_row_last_writer (i : nat) (k : InitialGuessMaker.slice_key) :
  (i < n)%nat ->
  in_sliceb i (sl k) = true ->
  (forall k', (key_order k < key_order k')%nat -> in_sliceb i (sl k') = false) ->
  nth i (assemble blocks (zeros n m)) []
  = nth (i - slice_start (sl k)) (category_rows self b k) [].
Proof.
  intros Hi Hin Hlater.
  destruct (all_keys_split k) as [before [after [Hsplit Hafter]]].
  pose proof guess_blocks_fit as Hfit.
  destruct (has_shape_zeros n m) as [Hlen _].
  subst blocks. rewrite Hsplit in Hfit |- *.
  rewrite map_app in Hfit |- *. simpl in Hfit |- *.
  rewrite nth_assemble_in.
  - f_equal. rewrite Hlen. apply in_sliceb_true in Hin. unfold lo. lia.
  - assumption.
  - rewrite Hlen. now apply in_sliceb_clamped.
  - rewrite Hlen. apply Forall_forall. intros sv Hsv.
    apply in_map_iff in Hsv. destruct Hsv as [k' [<- Hk']].
    unfold misses. simpl. intros Hin'.
    apply (in_sliceb_clamped i n (sl k') Hi) in Hin'.
    rewrite (Hlater k' (Hafter k' Hk')) in Hin'. discriminate.
Qed.

End AnySlices.

Lemma signal_block_returns
      (input_powers : vec) (sl : InitialGuessMaker.slice_map) (z : vec)
      (params : InitialGuessMaker.guess_params) :
  InitialGuessMaker.signal_gain_shape params = "linear"%string \/
  (InitialGuessMaker.signal_gain_shape params = "exponential"%string /\ z <> []) ->
  exists b,
    InitialGuessMaker.make_signal_guess
      (InitialGuessMaker.init input_powers sl z params) = Ok b.
Proof.
  intros [Hlin | [Hexp Hz]].
  - now apply make_signal_guess_returns_linear.
  - apply make_signal_guess_returns; [now right |].
    destruct z; [contradiction | simpl; lia].
Qed.

Lemma guess_any_slices_shape
      (input_powers : vec) (sl : InitialGuessMaker.slice_map) (z : vec)
      (params : InitialGuessMaker.guess_params) :
  InitialGuessMaker.signal_gain_shape params = "linear"%string \/
  (InitialGuessMaker.signal_gain_shape params = "exponential"%string /\ z <> []) ->
  exists guess,
    InitialGuessMaker.make_guess (InitialGuessMaker.init input_powers sl z params)
      = Ok guess /\
    has_shape (length input_powers) (length z) guess.
Proof.
  intros Hshape.
  destruct (signal_block_returns input_powers sl z params Hshape) as [b Hb].
  eexists. split.
  - exact (make_guess_assemble input_powers sl z params b Hb).
  - exact (guess_has_shape input_powers sl z params b Hb).
Qed.

(** Whatever the slice map, overlapping, with gaps or reaching past the last
    channel, [make_guess] raises no broadcasting error: with the linear
    shape, or the exponential shape on a non-empty grid, it returns an array
    with one row per input power and one column per grid point. *)
Theorem make_guess_returns_any_slices
        (input_powers : vec) (sl : InitialGuessMaker.slice_map) (z : vec)
        (params : InitialGuessMaker.guess_params) :
  InitialGuessMaker.signal_gain_shape params = "linear"%string \/
  (InitialGuessMaker.signal_gain_shape params = "exponential"%string /\ z <> []) ->
  exists guess,
    InitialGuessMaker.make_guess (InitialGuessMaker.init input_powers sl z params)
      = Ok guess /\
    has_shape (length input_powers) (length z) guess.
Proof.
  intros Hshape.
  destruct (guess_any_slices_shape input_powers sl z params Hshape)
    as [guess [Hguess Hhas]].
  exists guess. split; assumption.
Qed.

Lemma make_guess_returns_any_slices_witness :
  exists guess,
    InitialGuessMaker.make_guess
      (InitialGuessMaker.init sample_powers (fun _ => Slice 1 9) sample_z
         (sample_params "exponential")) = Ok guess /\
    has_shape 5 3 guess.
Proof.
  apply (make_guess_returns_any_slices sample_powers (fun _ => Slice 1 9) sample_z
           (sample_params "exponential")).
  right. split; [reflexivity | discriminate].
Defined.

(** A row that no slice of the map selects is left as [np.zeros] made it:
    all zeros. *)
Theorem make_guess_uncovered_row_zero
        (input_powers : vec) (sl : InitialGuessMaker.slice_map) (z : vec)
        (params : InitialGuessMaker.guess_params) (i : nat) :
  InitialGuessMaker.signal_gain_shape params = "linear"%string \/
  (InitialGuessMaker.signal_gain_shape params = "exponential"%string /\ z <> []) ->
  (i < length input_powers)%nat ->
  (forall k, in_sliceb i (sl k) = false) ->
  exists guess,
    InitialGuessMaker.make_guess (InitialGuessMaker.init input_powers sl z params)
      = Ok guess /\
    nth i guess [] = repeat 0 (length z).
Proof.
  intros Hshape Hi Hout.
  destruct (signal_block_returns input_powers sl z params Hshape) as [b Hb].
  eexists. split.
  - exact (make_guess_assemble input_powers sl z params b Hb).
  - exact (guess_row_untouched input_powers sl z params b Hb i Hi Hout).
Qed.

Lemma make_guess_uncovered_row_zero_witness :
  exists guess,
    InitialGuessMaker.make_guess
      (InitialGuessMaker.init sample_powers (fun _ => Slice 0 4) sample_z
         (sample_params "linear")) = Ok guess /\
    nth 4 guess [] = repeat 0 3.
Proof.
  apply (make_guess_uncovered_row_zero sample_powers (fun _ => Slice 0 4) sample_z
           (sample_params "linear") 4).
  - left. reflexivity.
  - simpl. lia.
  - intros k. reflexivity.
Defined.

(** Where slices overlap the assignment made last wins: a row selected by
    the slice of a category, and by no slice of a category assigned after it
    (in the order signal, co-pump, counter-pump, forward ASE, backward ASE,
    forward Raman, backward Raman), is that category's row. *)
Theorem make_guess_last_assignment_wins
        (input_powers : vec) (sl : InitialGuessMaker.slice_map) (z : vec)
        (params : InitialGuessMaker.guess_params)
        (i : nat) (k : InitialGuessMaker.slice_key) :
  let self := InitialGuessMaker.init input_powers sl z params in
  InitialGuessMaker.signal_gain_shape params = "linear"%string \/
  (InitialGuessMaker.signal_gain_shape params = "exponential"%string /\ z <> []) ->
  (i < length input_powers)%nat ->
  in_sliceb i (sl k) = true ->
  (forall k', (key_order k < key_order k')%nat -> in_sliceb i (sl k') = false) ->
  exists guess rows,
    InitialGuessMaker.make_guess self = Ok guess /\
    category_guess self k = Ok rows /\
    nth i guess [] = nth (i - slice_start (sl k)) rows [].
Proof.
  intros self Hshape Hi Hin Hlater.
  destruct (signal_block_returns input_powers sl z params Hshape) as [b Hb].
  fold self in Hb.
  eexists. exists (category_rows self b k). split; [| split].
  - exact (make_guess_assemble input_powers sl z params b Hb).
  - exact (category_guess_rows input_powers sl z params b k Hb).
  - exact (guess_row_last_writer input_powers sl z params b Hb i k Hi Hin Hlater).
Qed.

Lemma make_guess_last_assignment_wins_witness :
  let self := InitialGuessMaker.init sample_powers (fun _ => Slice 0 5) sample_z
                (sample_params "linear") in
  exists guess rows,
    InitialGuessMaker.make_guess self = Ok guess /\
    category_guess self InitialGuessMaker.backward_raman_slice = Ok rows /\
    nth 2 guess [] = nth (2 - 0) rows [].
Proof.
  apply (make_guess_last_assignment_wins sample_powers (fun _ => Slice 0 5) sample_z
           (sample_params "linear") 2 InitialGuessMaker.backward_raman_slice).
  - left. reflexivity.
  - simpl. lia.
  - reflexivity.
  - intros k' Hk'. destruct k'; simpl in Hk'; lia.
Defined.

(** On an empty grid the exponential shape fails with [IndexError], from
    [make_signal_guess] and so from [make_guess], even without any signal
    channel; the linear shape returns an array of rows without columns. *)
Theorem make_guess_empty_grid
        (input_powers : vec) (sl : InitialGuessMaker.slice_map)
        (params : InitialGuessMaker.guess_params) :
  let self := InitialGuessMaker.init input_powers sl [] params in
  (InitialGuessMaker.signal_gain_shape params = "exponential"%string ->
   InitialGuessMaker.make_signal_guess self = Raise IndexError /\
   InitialGuessMaker.make_guess self = Raise IndexError) /\
  (InitialGuessMaker.signal_gain_shape params = "linear"%string ->
   InitialGuessMaker.make_guess self = Ok (repeat [] (length input_powers))).
Proof.
  intros self. split.
  - intros Hshape.
    assert (Hsig : InitialGuessMaker.make_signal_guess self = Raise IndexError).
    { unfold InitialGuessMaker.make_signal_guess. simpl. now rewrite Hshape. }
    split; [exact Hsig |].
    unfold InitialGuessMaker.make_guess. now rewrite Hsig.
  - intros Hshape.
    destruct (guess_any_slices_shape input_powers sl [] params)
      as [guess [Hguess [Hlen Hrows]]]; [now left |].
    fold self in Hguess. rewrite Hguess. f_equal.
    apply (nth_ext _ _ [] []).
    + now rewrite repeat_length.
    + intros i Hi. rewrite nth_repeat_lt by lia.
      rewrite Forall_forall in Hrows.
      apply length_zero_iff_nil. apply Hrows. now apply nth_In.
Qed.

Lemma make_guess_empty_grid_witness :
  InitialGuessMaker.make_guess
    (InitialGuessMaker.init sample_powers sample_slices [] (sample_params "exponential"))
    = Raise IndexError /\
  InitialGuessMaker.make_guess
    (InitialGuessMaker.init sample_powers sample_slices [] (sample_params "linear"))
    = Ok (repeat [] 5).
Proof.
  split.
  - apply (make_guess_empty_grid sample_powers sample_slices (sample_params "exponential")).
    reflexivity.
  - apply (make_guess_empty_grid sample_powers sample_slices (sample_params "linear")).
    reflexivity.
Defined.

(** * Further properties of the active fiber *)

Section ActiveFiberChannels.

Variable freq_to_wl : R -> R.
Variable fundamental_mode_mfd_petermann_2 : R -> R -> R -> R.
Variable effective_area_from_mfd : R -> R -> R -> R.
Variable overlap_integral : R -> R -> R.
Variable wl_to_freq : R -> R.
Variable wl_bw_to_freq_bw : R -> R -> R.
Variable wl_to_freq_array : vec -> vec.
Variable UnivariateSpline : vec -> vec -> R -> (R -> R).

Abbreviation get_mfd := (ActiveFiber.get_mfd freq_to_wl fundamental_mode_mfd_petermann_2).
Abbreviation nonlinear_effective_area :=
  (ActiveFiber.nonlinear_effective_area freq_to_wl effective_area_from_mfd).
Abbreviation make_single_overlap := (ActiveFiber.make_single_overlap overlap_integral).
Abbreviation get_channel_gain := (ActiveFiber.get_channel_gain overlap_integral).
Abbreviation get_channel_absorption := (ActiveFiber.get_channel_absorption overlap_integral).
Abbreviation finite_bandwidth_gain := (ActiveFiber.finite_bandwidth_gain overlap_integral).
Abbreviation finite_bandwidth_absorption :=
  (ActiveFiber.finite_bandwidth_absorption overlap_integral).
Abbreviation make_interpolate :=
  (ActiveFiber.make_interpolate wl_to_freq_array UnivariateSpline).
Abbreviation fiber_init := (ActiveFiber.init wl_to_freq_array UnivariateSpline).
Abbreviation create_single :=
  (ActiveFiber.create_in_core_single_frequency_channel
     freq_to_wl fundamental_mode_mfd_petermann_2 overlap_integral wl_to_freq).
Abbreviation create_finite :=
  (ActiveFiber.create_in_core_finite_bandwidth_channel
     freq_to_wl fundamental_mode_mfd_petermann_2 overlap_integral wl_to_freq
     wl_bw_to_freq_bw).

(** The overlap mode chosen last decides.  After [use_constant_overlap] the
    channel gain and absorption are returned for every radius, with the
    constant as overlap; after [use_automatic_overlap] they are returned,
    with the overlap integral of the core radius and the mode field radius,
    for a positive radius only, and a radius of zero or below makes both
    raise [TypeError]. *)
Theorem overlap_mode_decides (self : ActiveFiber.t) (o freq r : R) :
  let constant := ActiveFiber.use_constant_overlap self o in
  let automatic := ActiveFiber.use_automatic_overlap self in
  let n := ActiveFiber.ion_number_density self in
  (get_channel_gain constant freq r = Ok (ActiveFiber.gain_cs_interp self freq * o * n) /\
   get_channel_absorption constant freq r
     = Ok (ActiveFiber.absorption_cs_interp self freq * o * n)) /\
  (0 < r ->
   get_channel_gain automatic freq r
     = Ok (ActiveFiber.gain_cs_interp self freq
           * overlap_integral (ActiveFiber.core_r self) r * n) /\
   get_channel_absorption automatic freq r
     = Ok (ActiveFiber.absorption_cs_interp self freq
           * overlap_integral (ActiveFiber.core_r self) r * n)) /\
  (r <= 0 ->
   get_channel_gain automatic freq r = Raise TypeError /\
   get_channel_absorption automatic freq r = Raise TypeError) /\
  ActiveFiber.use_automatic_overlap constant = automatic /\
  ActiveFiber.use_constant_overlap automatic o = constant.
Proof.
  intros constant automatic n.
  unfold ActiveFiber.get_channel_gain, ActiveFiber.get_channel_absorption,
    ActiveFiber.make_single_overlap. simpl.
  split; [split; reflexivity |].
  split; [| split; [| split; reflexivity]].
  - intros Hr. destruct (Rlt_dec 0 r); [split; reflexivity | contradiction].
  - intros Hr. destruct (Rlt_dec 0 r); [lra | split; reflexivity].
Qed.

(** The interpolant of a spectrum is never negative, whatever the spline
    returns. *)
Lemma make_interpolate_nonneg (spectrum : list (R * R)) (freq : R) :
  0 <= make_interpolate spectrum freq.
Proof.
  unfold ActiveFiber.make_interpolate.
  destruct (Rlt_dec _ 0); lra.
Qed.

(** A freshly constructed fiber has automatic overlap and the core area as
    effective area: [nonlinear_effective_area] returns [pi * core_r^2] for
    every frequency, and its gain and absorption coefficients, returned for
    every positive mode field radius, are non-negative when the ion density
    and the overlap integral are. *)
Theorem fresh_fiber (length : R) (absorption_spectrum gain_spectrum : list (R * R))
        (core_r tau n background_loss core_na freq r : R) :
  let fiber := fiber_init length absorption_spectrum gain_spectrum core_r tau n
                 background_loss core_na in
  nonlinear_effective_area fiber freq = Ok (Some (PI * core_r ^ 2)) /\
  ActiveFiber.overlap_is_constant fiber = false /\
  (0 < r -> 0 <= n -> 0 <= overlap_integral core_r r ->
   exists g a,
     get_channel_gain fiber freq r = Ok g /\
     get_channel_absorption fiber freq r = Ok a /\
     0 <= g /\ 0 <= a).
Proof.
  intros fiber. split; [| split].
  - unfold ActiveFiber.nonlinear_effective_area. simpl.
    unfold ActiveFiber.effective_area_from_core_area, ActiveFiber.core_area. simpl.
    do 2 f_equal. lra.
  - reflexivity.
  - intros Hr Hn Ho.
    unfold ActiveFiber.get_channel_gain, ActiveFiber.get_channel_absorption,
      ActiveFiber.make_single_overlap. simpl.
    destruct (Rlt_dec 0 r); [| contradiction]. simpl.
    eexists. eexists. split; [reflexivity |]. split; [reflexivity |].
    split; apply Rmult_le_pos; trivial;
      apply Rmult_le_pos; trivial; apply make_interpolate_nonneg.
Qed.

End ActiveFiberChannels.

Lemma overlap_mode_decides_witness :
  ActiveFiber.get_channel_gain sample_overlap_integral
    (ActiveFiber.use_automatic_overlap (sample_fiber (Some 1) "core_area")) 100 5
    = Ok (3 * sample_overlap_integral 5 5 * 7) /\
  ActiveFiber.get_channel_gain sample_overlap_integral
    (ActiveFiber.use_automatic_overlap (sample_fiber (Some 1) "core_area")) 100 0
    = Raise TypeError.
Proof.
  pose proof (overlap_mode_decides sample_overlap_integral
                (sample_fiber (Some 1) "core_area") 1 100 5) as H5.
  pose proof (overlap_mode_decides sample_overlap_integral
                (sample_fiber (Some 1) "core_area") 1 100 0) as H0.
  cbv zeta in H5, H0.
  destruct H5 as [_ [Hpos _]]. destruct H0 as [_ [_ [Hneg _]]].
  split.
  - apply Hpos. lra.
  - apply Hneg. lra.
Defined.

Lemma fresh_fiber_witness :
  let fiber := ActiveFiber.init sample_wl_to_freq_array sample_spline 10
                 [(900, 1); (1000, 2)] [(1000, 1); (1100, 3)] 5 1 7 0 1 in
  exists g a,
    ActiveFiber.get_channel_gain sample_overlap_integral fiber 2 5 = Ok g /\
    ActiveFiber.get_channel_absorption sample_overlap_integral fiber 2 5 = Ok a /\
    0 <= g /\ 0 <= a.
Proof.
  intros fiber.
  apply (fresh_fiber sample_freq_to_wl sample_effective_area sample_overlap_integral
           sample_wl_to_freq_array sample_spline
           10 [(900, 1); (1000, 2)] [(1000, 1); (1100, 3)] 5 1 7 0 1 2 5).
  - lra.
  - lra.
  - unfold sample_overlap_integral. lra.
Defined.

(** ** Channel creation *)

Section ChannelCreation.

Variable freq_to_wl : R -> R.
Variable fundamental_mode_mfd_petermann_2 : R -> R -> R -> R.
Variable overlap_integral : R -> R -> R.
Variable wl_to_freq : R -> R.
Variable wl_bw_to_freq_bw : R -> R -> R.

Abbreviation get_mfd := (ActiveFiber.get_mfd freq_to_wl fundamental_mode_mfd_petermann_2).
Abbreviation make_single_overlap := (ActiveFiber.make_single_overlap overlap_integral).
Abbreviation get_channel_gain := (ActiveFiber.get_channel_gain overlap_integral).
Abbreviation get_channel_absorption := (ActiveFiber.get_channel_absorption overlap_integral).
Abbreviation finite_bandwidth_gain := (ActiveFiber.finite_bandwidth_gain overlap_integral).
Abbreviation finite_bandwidth_absorption :=
  (ActiveFiber.finite_bandwidth_absorption overlap_integral).
Abbreviation create_single :=
  (ActiveFiber.create_in_core_single_frequency_channel
     freq_to_wl fundamental_mode_mfd_petermann_2 overlap_integral wl_to_freq).
Abbreviation create_finite :=
  (ActiveFiber.create_in_core_finite_bandwidth_channel
     freq_to_wl fundamental_mode_mfd_petermann_2 overlap_integral wl_to_freq
     wl_bw_to_freq_bw).

Lemma make_single_overlap_none (self : ActiveFiber.t) (r : R) :
  ActiveFiber.overlap self = None -> r <= 0 -> make_single_overlap self r = None.
Proof.
  intros Hov Hr. unfold ActiveFiber.make_single_overlap, ActiveFiber.overlap_is_constant.
  rewrite Hov. destruct (Rlt_dec 0 r); [lra | reflexivity].
Qed.

(** Creating a single-frequency channel fails exactly when the overlap is
    automatic and the mode field diameter in use (the preset, or the
    Petermann-II value for a preset of zero or below) is not positive, and
    then with [TypeError]; otherwise the channel is returned with the
    frequency of the wavelength, zero bandwidth, the given power and
    direction, that diameter, the fiber's background loss and the gain and
    absorption of half the diameter as radius.  A positive preset always
    gives a channel, with the preset as diameter. *)
Theorem create_single_frequency_channel_result
        (self : ActiveFiber.t) (wl power preset_mfd : R) (direction : Z) :
  let frequency := wl_to_freq wl in
  let mfd := get_mfd self frequency preset_mfd in
  (ActiveFiber.overlap self = None -> mfd <= 0 ->
   create_single self wl power preset_mfd direction = Raise TypeError) /\
  (ActiveFiber.overlap self <> None \/ 0 < mfd ->
   exists o,
     make_single_overlap self (mfd / 2) = Some o /\
     create_single self wl power preset_mfd direction
     = Ok (ActiveFiber.MakeChannel frequency 0 power direction mfd
             (ActiveFiber.gain_cs_interp self frequency * o
              * ActiveFiber.ion_number_density self)
             (ActiveFiber.absorption_cs_interp self frequency * o
              * ActiveFiber.ion_number_density self)
             (ActiveFiber.background_loss self))) /\
  (0 < preset_mfd ->
   exists c,
     create_single self wl power preset_mfd direction = Ok c /\
     ActiveFiber.channel_mfd c = preset_mfd).
Proof.
  intros frequency mfd.
  assert (Hsome : ActiveFiber.overlap self <> None \/ 0 < mfd ->
            exists o,
              make_single_overlap self (mfd / 2) = Some o /\
              create_single self wl power preset_mfd direction
              = Ok (ActiveFiber.MakeChannel frequency 0 power direction mfd
                      (ActiveFiber.gain_cs_interp self frequency * o
                       * ActiveFiber.ion_number_density self)
                      (ActiveFiber.absorption_cs_interp self frequency * o
                       * ActiveFiber.ion_number_density self)
                      (ActiveFiber.background_loss self))).
  { intros Hov.
    destruct (make_single_overlap_some overlap_integral self (mfd / 2)) as [o Ho].
    { destruct Hov as [Hov | Hpos]; [now left | right; lra]. }
    exists o. split; [exact Ho |].
    unfold ActiveFiber.create_in_core_single_frequency_channel,
      ActiveFiber.get_channel_gain, ActiveFiber.get_channel_absorption.
    fold frequency. fold mfd. rewrite Ho. reflexivity. }
  split; [| split].
  - intros Hov Hmfd.
    unfold ActiveFiber.create_in_core_single_frequency_channel,
      ActiveFiber.get_channel_gain.
    fold frequency. fold mfd.
    rewrite make_single_overlap_none by (trivial; lra). reflexivity.
  - exact Hsome.
  - intros Hpreset.
    assert (Hmfd : mfd = preset_mfd).
    { subst mfd. unfold ActiveFiber.get_mfd.
      destruct (Rlt_dec 0 preset_mfd); [reflexivity | contradiction]. }
    destruct Hsome as [o [_ Hc]]; [right; lra |].
    eexists. split; [exact Hc |]. exact Hmfd.
Qed.

(** The backward creators return the channel the forward creators return
    with direction [-1] in place of [+1], and fail when they fail; the pump
    creators are the signal creators. *)
Theorem create_channel_directions
        (self : ActiveFiber.t) (wl wl_bandwidth power preset_mfd : R) :
  ActiveFiber.create_in_core_backward_single_frequency_channel
    freq_to_wl fundamental_mode_mfd_petermann_2 overlap_integral wl_to_freq
    self wl power preset_mfd
  = map_result (with_direction (-1))
      (ActiveFiber.create_in_core_forward_single_frequency_channel
         freq_to_wl fundamental_mode_mfd_petermann_2 overlap_integral wl_to_freq
         self wl power preset_mfd) /\
  ActiveFiber.create_in_core_backward_finite_bandwidth_channel
    freq_to_wl fundamental_mode_mfd_petermann_2 overlap_integral wl_to_freq
    wl_bw_to_freq_bw self wl wl_bandwidth power preset_mfd
  = map_result (with_direction (-1))
      (ActiveFiber.create_in_core_forward_finite_bandwidth_channel
         freq_to_wl fundamental_mode_mfd_petermann_2 overlap_integral wl_to_freq
         wl_bw_to_freq_bw self wl wl_bandwidth power preset_mfd) /\
  map_result ActiveFiber.channel_direction
    (ActiveFiber.create_in_core_forward_single_frequency_channel
       freq_to_wl fundamental_mode_mfd_petermann_2 overlap_integral wl_to_freq
       self wl power preset_mfd)
  = map_result (fun _ => 1%Z)
      (ActiveFiber.create_in_core_forward_single_frequency_channel
         freq_to_wl fundamental_mode_mfd_petermann_2 overlap_integral wl_to_freq
         self wl power preset_mfd) /\
  ActiveFiber.create_forward_pump_channel
    freq_to_wl fundamental_mode_mfd_petermann_2 overlap_integral wl_to_freq
    self wl power preset_mfd
  = ActiveFiber.create_in_core_forward_single_frequency_channel
      freq_to_wl fundamental_mode_mfd_petermann_2 overlap_integral wl_to_freq
      self wl power preset_mfd /\
  ActiveFiber.create_backward_pump_channel
    freq_to_wl fundamental_mode_mfd_petermann_2 overlap_integral wl_to_freq
    self wl power preset_mfd
  = ActiveFiber.create_in_core_backward_single_frequency_channel
      freq_to_wl fundamental_mode_mfd_petermann_2 overlap_integral wl_to_freq
      self wl power preset_mfd.
Proof.
  unfold ActiveFiber.create_in_core_backward_single_frequency_channel,
    ActiveFiber.create_in_core_forward_single_frequency_channel,
    ActiveFiber.create_in_core_backward_finite_bandwidth_channel,
    ActiveFiber.create_in_core_forward_finite_bandwidth_channel,
    ActiveFiber.create_forward_pump_channel, ActiveFiber.create_backward_pump_channel,
    ActiveFiber.create_in_core_single_frequency_channel,
    ActiveFiber.create_in_core_finite_bandwidth_channel.
  repeat split.
  - destruct (get_channel_gain self _ _); simpl; [| reflexivity].
    destruct (get_channel_absorption self _ _); reflexivity.
  - destruct (finite_bandwidth_gain self _ _ _); simpl; [| reflexivity].
    destruct (finite_bandwidth_absorption self _ _ _); reflexivity.
  - destruct (get_channel_gain self _ _); simpl; [| reflexivity].
    destruct (get_channel_absorption self _ _); reflexivity.
Qed.

Lemma finite_bandwidth_zero (self : ActiveFiber.t) (f r : R) :
  finite_bandwidth_gain self f 0 r = get_channel_gain self f r /\
  finite_bandwidth_absorption self f 0 r = get_channel_absorption self f r.
Proof.
  unfold ActiveFiber.finite_bandwidth_gain, ActiveFiber.finite_bandwidth_absorption.
  replace (f - 0 / 2) with f by lra. replace (f + 0 / 2) with f by lra.
  split.
  - destruct (get_channel_gain self f r) as [g | e]; simpl; [| reflexivity].
    rewrite mean_pair. unfold mean2. f_equal. lra.
  - destruct (get_channel_absorption self f r) as [a | e]; simpl; [| reflexivity].
    rewrite mean_pair. unfold mean2. f_equal. lra.
Qed.

(** A finite-bandwidth channel whose wavelength bandwidth converts to a
    frequency bandwidth of zero is the single-frequency channel of the same
    wavelength, power, preset and direction. *)
Theorem create_finite_bandwidth_zero
        (self : ActiveFiber.t) (wl wl_bandwidth power preset_mfd : R) (direction : Z) :
  wl_bw_to_freq_bw wl_bandwidth wl = 0 ->
  create_finite self wl wl_bandwidth power preset_mfd direction
  = create_single self wl power preset_mfd direction.
Proof.
  intros Hbw.
  unfold ActiveFiber.create_in_core_finite_bandwidth_channel,
    ActiveFiber.create_in_core_single_frequency_channel.
  rewrite Hbw.
  destruct (finite_bandwidth_zero self (wl_to_freq wl)
              (get_mfd self (wl_to_freq wl) preset_mfd / 2)) as [-> ->].
  reflexivity.
Qed.

(** The finite-bandwidth gain and absorption do not depend on the sign of
    the bandwidth. *)
Theorem finite_bandwidth_sign (self : ActiveFiber.t) (f B r : R) :
  finite_bandwidth_gain self f (- B) r = finite_bandwidth_gain self f B r /\
  finite_bandwidth_absorption self f (- B) r = finite_bandwidth_absorption self f B r.
Proof.
  unfold ActiveFiber.finite_bandwidth_gain, ActiveFiber.finite_bandwidth_absorption,
    ActiveFiber.get_channel_gain, ActiveFiber.get_channel_absorption.
  replace (f - - B / 2) with (f + B / 2) by lra.
  replace (f + - B / 2) with (f - B / 2) by lra.
  destruct (make_single_overlap self r) as [o |]; simpl; [| split; reflexivity].
  rewrite !mean_pair. unfold mean2. split; f_equal; lra.
Qed.

End ChannelCreation.

Lemma create_single_frequency_channel_result_witness :
  exists c,
    ActiveFiber.create_in_core_single_frequency_channel
      sample_freq_to_wl sample_mfd sample_overlap_integral sample_wl_to_freq
      (sample_fiber None "core_area") 1000 2 6 1%Z = Ok c /\
    ActiveFiber.channel_mfd c = 6.
Proof.
  apply (create_single_frequency_channel_result
           sample_freq_to_wl sample_mfd sample_overlap_integral sample_wl_to_freq
           (sample_fiber None "core_area") 1000 2 6 1%Z).
  lra.
Defined.

Lemma create_finite_bandwidth_zero_witness :
  ActiveFiber.create_in_core_finite_bandwidth_channel
    sample_freq_to_wl sample_mfd sample_overlap_integral sample_wl_to_freq
    sample_wl_bw_to_freq_bw (sample_fiber None "core_area") 1000 0 2 6 1%Z
  = ActiveFiber.create_in_core_single_frequency_channel
      sample_freq_to_wl sample_mfd sample_overlap_integral sample_wl_to_freq
      (sample_fiber None "core_area") 1000 2 6 1%Z.
Proof.
  apply (create_finite_bandwidth_zero
           sample_freq_to_wl sample_mfd sample_overlap_integral sample_wl_to_freq
           sample_wl_bw_to_freq_bw (sample_fiber None "core_area") 1000 0 2 6 1%Z).
  unfold sample_wl_bw_to_freq_bw. lra.
Defined.

(** * The starting grid and the guess of [run] *)

Lemma length_linspace (start stop : R) (num : nat) :
  length (linspace start stop num) = num.
Proof.
  unfold linspace.
  set (y := map _ (seq 0 num)).
  assert (Hy : length y = num) by (subst y; now rewrite length_map, length_seq).
  destruct (1 <? num)%nat eqn:E; [| exact Hy].
  apply Nat.ltb_lt in E.
  rewrite length_app, removelast_firstn_len, length_firstn, Hy. simpl. lia.
Qed.

Lemma nth_linspace (start stop : R) (num k : nat) :
  (2 <= num)%nat -> (k < num - 1)%nat ->
  nth k (linspace start stop num) 0 = INR k * ((stop - start) / INR (num - 1)) + start.
Proof.
  intros Hnum Hk. unfold linspace.
  set (f := fun k0 : nat => _).
  assert (Hy : length (map f (seq 0 num)) = num) by now rewrite length_map, length_seq.
  assert (E : (1 <? num)%nat = true) by (apply Nat.ltb_lt; lia).
  rewrite E.
  rewrite app_nth1
    by (rewrite removelast_firstn_len, length_firstn, Hy; lia).
  rewrite removelast_firstn_len, Hy, nth_firstn.
  assert (Ek : (k <? Nat.pred num)%nat = true) by (apply Nat.ltb_lt; lia).
  rewrite Ek. rewrite (nth_map_in f _ _ 0%nat) by (rewrite length_seq; lia).
  rewrite seq_nth by lia. subst f. cbv beta.
  assert (Ed : (0 <? num - 1)%nat = true) by (apply Nat.ltb_lt; lia).
  now rewrite Ed.
Qed.

Lemma nth_linspace_last (start stop : R) (num : nat) :
  (2 <= num)%nat -> nth (num - 1) (linspace start stop num) 0 = stop.
Proof.
  intros Hnum. unfold linspace.
  set (y := map _ (seq 0 num)).
  assert (Hy : length y = num) by (subst y; now rewrite length_map, length_seq).
  assert (E : (1 <? num)%nat = true) by (apply Nat.ltb_lt; lia).
  rewrite E.
  assert (Hlen : length (removelast y) = (num - 1)%nat).
  { rewrite removelast_firstn_len, length_firstn, Hy. lia. }
  rewrite app_nth2 by lia. rewrite Hlen, Nat.sub_diag. reflexivity.
Qed.

Lemma last_item_of_nth (a : vec) :
  (1 <= length a)%nat -> last_item a = Ok (nth (length a - 1) a 0).
Proof.
  intros Hlen. destruct a as [| x a']; [simpl in Hlen; lia |].
  destruct (last_item_cons x a') as [y Hy].
  rewrite Hy. f_equal. symmetry. now apply last_item_nth.
Qed.

(** The starting grid of [run] has [npoints] points; with two or more it
    starts at [0], ends at the fiber length, its points are evenly spaced,
    and its last item is the fiber length. *)
Theorem start_z_grid (fiber : ActiveFiber.t) (npoints : nat) :
  let z := FiberAmplifierSimulation._start_z fiber npoints in
  let L := ActiveFiber.length_ fiber in
  length z = npoints /\
  ((2 <= npoints)%nat ->
   nth 0 z 0 = 0 /\
   nth (npoints - 1) z 0 = L /\
   last_item z = Ok L /\
   forall k, (k < npoints)%nat -> nth k z 0 = INR k * L / INR (npoints - 1)).
Proof.
  intros z L. subst z. unfold FiberAmplifierSimulation._start_z. fold L.
  split; [apply length_linspace |].
  intros Hn.
  pose proof (INR_pred_pos npoints Hn) as Hd.
  assert (Hk : forall k, (k < npoints)%nat ->
            nth k (linspace 0 L npoints) 0 = INR k * L / INR (npoints - 1)).
  { intros k Hk. destruct (Nat.eq_dec k (npoints - 1)) as [-> | Hne].
    - rewrite nth_linspace_last by assumption. field. lra.
    - rewrite nth_linspace by lia. field. lra. }
  repeat split.
  - rewrite Hk by lia. simpl. field. lra.
  - now apply nth_linspace_last.
  - rewrite last_item_of_nth by (rewrite length_linspace; lia).
    rewrite length_linspace. f_equal. now apply nth_linspace_last.
  - exact Hk.
Qed.

Lemma start_z_grid_witness :
  let z := FiberAmplifierSimulation._start_z (sample_fiber None "core_area") 20 in
  nth 0 z 0 = 0 /\
  nth 19 z 0 = 10 /\
  last_item z = Ok 10 /\
  forall k, (k < 20)%nat -> nth k z 0 = INR k * 10 / INR 19.
Proof.
  intros z.
  apply (start_z_grid (sample_fiber None "core_area") 20).
  lia.
Defined.

(** The guess [run] builds never fails, whatever the channels, the slice
    map and the number of grid points: it is returned with one row per input
    power and [npoints] columns.  With slices that partition the channels,
    two or more grid points and non-negative input powers, none of its
    entries is negative. *)
Theorem run_guess_returns (fiber : ActiveFiber.t) (input_powers : vec)
        (sl : InitialGuessMaker.slice_map) (npoints : nat) :
  exists guess,
    FiberAmplifierSimulation.run_guess fiber input_powers sl npoints = Ok guess /\
    has_shape (length input_powers) npoints guess /\
    (slices_partition sl (length input_powers) = true ->
     (2 <= npoints)%nat ->
     Forall (fun p => 0 <= p) input_powers ->
     all_entries_ge 0 guess).
Proof.
  unfold FiberAmplifierSimulation.run_guess.
  set (z := FiberAmplifierSimulation._start_z fiber npoints).
  assert (Hz : length z = npoints) by apply length_linspace.
  destruct (guess_any_slices_shape input_powers sl z
              InitialGuessMaker.DEFAULT_GUESS_PARAMS) as [guess [Hguess Hshape]];
    [now left |].
  exists guess. rewrite Hz in Hshape.
  split; [exact Hguess |]. split; [exact Hshape |].
  intros Hpart Hn Hpowers.
  destruct (guess_entries_ge input_powers sl z InitialGuessMaker.DEFAULT_GUESS_PARAMS 0)
    as [guess' [Hguess' Hge]]; simpl; try assumption; try lra; try reflexivity.
  { rewrite Hz. exact Hn. }
  rewrite Hguess in Hguess'. injection Hguess' as <-.
  simpl in Hge.
  replace 0 with (0.01 * Rmin 0 1e-3) at 1; [exact Hge |].
  unfold Rmin. destruct (Rle_dec 0 1e-3); lra.
Qed.

Lemma run_guess_returns_witness :
  exists guess,
    FiberAmplifierSimulation.run_guess (sample_fiber None "core_area")
      sample_powers sample_slices 20 = Ok guess /\
    has_shape 5 20 guess /\
    all_entries_ge 0 guess.
Proof.
  destruct (run_guess_returns (sample_fiber None "core_area")
              sample_powers sample_slices 20) as [guess [Hguess [Hshape Hge]]].
  exists guess. split; [exact Hguess |]. split; [exact Hshape |].
  apply Hge.
  - reflexivity.
  - lia.
  - unfold sample_powers. repeat (constructor; [lra |]). constructor.
Defined.
